(** * mcnp_companion: deck assembly and engine launch

    A shallow embedding of [mcnp_companion/mcnp_companion.py] and
    [mcnp_companion/runner.py] (Python 2), with the statements of the
    deck-numbering, rendering and launch properties proved against it.

    Python [str] values are byte strings and are modelled by [string];
    Python integers are unbounded and are modelled by [Z]. *)

From Stdlib Require Import ZArith String Ascii List Lia Bool.
From stdpp Require Import gmap strings pretty.

Local Open Scope Z_scope.

(** * Strings *)

(** [infix s t]: [s] occurs verbatim, as a contiguous run of bytes, in [t]. *)
Definition infix (s t : string) : Prop := exists a b, t = a +:+ s +:+ b.

(** Executable occurrence test, [s in t] of Python. *)
Fixpoint infixb (s t : string) : bool :=
  String.prefix s t ||
  match t with
  | EmptyString => false
  | String _ t' => infixb s t'
  end.

(** * The Python runtime: the built-ins the two modules call *)

Module Py.

(** Exceptions that the modelled statements can raise. [NotModelled]
    marks an outcome of the runtime that lies outside the fragment
    modelled here (see [percent]). *)
Inductive exn :=
| AttributeError (attr : string)
| TypeError (msg : string)
| ValueError (msg : string)
| NotModelled (what : string).

Inductive outcome (A : Type) :=
| Ok (a : A)
| Raise (e : exn).
Arguments Ok {A} a.
Arguments Raise {A} e.

(** [str.isspace] on one byte in the C locale. *)
Definition isspace (c : ascii) : bool := Ascii.is_space c.

(** [s.split()]: the maximal runs of non-whitespace bytes. *)
Definition split (s : string) : list string := String.words s.

(** [sep.join(l)]. *)
Definition join (sep : string) (l : list string) : string :=
  String.concat sep l.

(** [c * n] for a one-byte string [c]. *)
Fixpoint repeat_char (c : ascii) (n : nat) : string :=
  match n with
  | O => EmptyString
  | S n' => String c (repeat_char c n')
  end.

(** [s.center(width, fillchar)], as in CPython's [string_center]:
    [left = marg / 2 + (marg & width & 1)]. *)
Definition center (s : string) (width : nat) (fillchar : ascii) : string :=
  let len := String.length s in
  if (width <=? len)%nat then s
  else
    let marg := (width - len)%nat in
    let left := (marg / 2 + Nat.land (Nat.land marg width) 1)%nat in
    repeat_char fillchar left +:+ s +:+ repeat_char fillchar (marg - left).

(** ["%d" % n] for an integer [n]: its decimal numeral. *)
Definition dec (n : Z) : string := pretty n.

(** [fmt % n] for a format string [fmt] and a single integer argument
    [n] (not a tuple). Modelled: literal bytes, [%%], and the plain
    conversions [%d], [%i], [%u], [%s] (no flags, width or precision),
    with the runtime's errors for a missing or an unused argument and
    for a dangling [%]. Any other conversion is [NotModelled]. *)
Fixpoint percent_go (fmt : string) (arg : option Z) (acc : string)
  : outcome string :=
  match fmt with
  | EmptyString =>
      match arg with
      | Some _ =>
          Raise (TypeError
                   "not all arguments converted during string formatting")
      | None => Ok acc
      end
  | String "%"%char EmptyString => Raise (ValueError "incomplete format")
  | String "%"%char (String c rest) =>
      if Ascii.eqb c "%" then percent_go rest arg (acc +:+ "%")
      else if Ascii.eqb c "d" || Ascii.eqb c "i" || Ascii.eqb c "u"
              || Ascii.eqb c "s" then
        match arg with
        | Some n => percent_go rest None (acc +:+ dec n)
        | None =>
            Raise (TypeError "not enough arguments for format string")
        end
      else Raise (NotModelled "format conversion")
  | String c rest => percent_go rest arg (acc +:+ String c EmptyString)
  end.

Definition percent (fmt : string) (n : Z) : outcome string :=
  percent_go fmt (Some n) EmptyString.

(** [s.expandtabs()] with the default tab size 8. *)
Fixpoint expandtabs_go (col : nat) (s : string) : string :=
  match s with
  | EmptyString => EmptyString
  | String c s' =>
      if Ascii.eqb c "009" then
        let incr := (8 - col mod 8)%nat in
        repeat_char " " incr +:+ expandtabs_go (col + incr) s'
      else if Ascii.eqb c "010" || Ascii.eqb c "013" then
        String c (expandtabs_go 0 s')
      else String c (expandtabs_go (S col) s')
  end.

Definition expandtabs (s : string) : string := expandtabs_go 0 s.

End Py.
Export Py.

(** * The [textwrap] module of the standard library

    [TextWrapper(initial_indent, subsequent_indent, width).fill(text)] with
    every other option at its default: tabs expanded, whitespace replaced
    by spaces, long words broken, whitespace at line ends dropped, breaks
    allowed after hyphens. *)

Module textwrap.

(** [\w] and [\d] of [re] on byte strings (no LOCALE, no UNICODE). *)
Definition is_digit (c : ascii) : bool :=
  let n := nat_of_ascii c in ((48 <=? n) && (n <=? 57))%nat.

Definition is_word (c : ascii) : bool :=
  let n := nat_of_ascii c in
  (((48 <=? n) && (n <=? 57)) || ((65 <=? n) && (n <=? 90))
   || ((97 <=? n) && (n <=? 122)) || (n =? 95))%nat.

Definition is_punct (c : ascii) : bool := negb (isspace c || is_word c).

Definition is_dash (c : ascii) : bool := Ascii.eqb c "-".

(** Longest prefix of [s] whose bytes satisfy [p], and what follows. *)
Fixpoint span (p : ascii -> bool) (s : string) : string * string :=
  match s with
  | EmptyString => (EmptyString, EmptyString)
  | String c s' =>
      if p c then let '(a, b) := span p s' in (String c a, b)
      else (EmptyString, s)
  end.

Fixpoint existsb_s (p : ascii -> bool) (s : string) : bool :=
  match s with
  | EmptyString => false
  | String c s' => p c || existsb_s p s'
  end.

Fixpoint forallb_s (p : ascii -> bool) (s : string) : bool :=
  match s with
  | EmptyString => true
  | String c s' => p c && forallb_s p s'
  end.

Fixpoint last_char (s : string) : option ascii :=
  match s with
  | EmptyString => None
  | String c EmptyString => Some c
  | String _ s' => last_char s'
  end.

(** [_munge_whitespace]: expand tabs, then map each of
    ["\t\n\x0b\x0c\r "] to a space. *)
Fixpoint translate_whitespace (s : string) : string :=
  match s with
  | EmptyString => EmptyString
  | String c s' =>
      String (if isspace c then " "%char else c) (translate_whitespace s')
  end.

Definition _munge_whitespace (text : string) : string :=
  translate_whitespace (expandtabs text).

(** One match of [wordsep_re] starting at the head of [s], as the number
    of bytes matched; [prev] is the byte before [s], for the look-behind.
    The alternatives are tried in the order of the regular expression:
    - [\s+];
    - [[^\s\w]*\w+[^0-9\W]-(?=\w+[^0-9\W])]: punctuation, then a word of
      two bytes or more ending in a non-digit, then a hyphen, provided a
      word follows that has a non-digit after its first byte;
    - the em-dash alternative, [-{2,}] with a look-behind and a
      look-ahead: two dashes or more between a word byte (or one of
      [! & . , ?], the single or the double quote) and a word byte. *)
Definition lookbehind_ok (prev : option ascii) : bool :=
  match prev with
  | None => false
  | Some c =>
      is_word c || Ascii.eqb c "!" || Ascii.eqb c "034" || Ascii.eqb c "'"
      || Ascii.eqb c "&" || Ascii.eqb c "." || Ascii.eqb c ","
      || Ascii.eqb c "?"
  end.

Definition wordsep_match (prev : option ascii) (s : string) : option nat :=
  let '(ws, _) := span isspace s in
  if negb (String.eqb ws EmptyString) then Some (String.length ws)
  else
    let '(pu, r1) := span is_punct s in
    let '(wd, r2) := span is_word r1 in
    let hyphenated :=
      (2 <=? String.length wd)%nat
      && match last_char wd with
         | Some c => negb (is_digit c)
         | None => false
         end
      && match r2 with
         | String c r3 =>
             is_dash c
             && match fst (span is_word r3) with
                | String _ w => existsb_s (fun c => negb (is_digit c)) w
                | EmptyString => false
                end
         | EmptyString => false
         end in
    if hyphenated then Some (String.length pu + String.length wd + 1)%nat
    else
      let '(ds, r) := span is_dash s in
      if lookbehind_ok prev && (2 <=? String.length ds)%nat
         && match r with
            | String c _ => is_word c
            | EmptyString => false
            end
      then Some (String.length ds)
      else None.

(** [filter(None, wordsep_re.split(text))]: the separators matched and
    the text between them, empty pieces removed. [skip] counts the bytes
    of the current match still to be read, [cur] holds the piece being
    read, last byte first. *)
Definition chunk (cur : string) : list string :=
  match cur with
  | EmptyString => []
  | _ => [String.rev cur]
  end.

Fixpoint _split_go (skip : nat) (prev : option ascii) (cur s : string)
  : list string :=
  match s with
  | EmptyString => chunk cur
  | String c s' =>
      let '(done, skip1, cur1) :=
        match skip with
        | O =>
            match wordsep_match prev s with
            | Some n => (chunk cur, n, EmptyString)
            | None => ([], O, cur)
            end
        | _ => ([], skip, cur)
        end in
      match skip1 with
      | O => done ++ _split_go O (Some c) (String c cur1) s'
      | S O => done ++ chunk (String c cur1)
                 ++ _split_go O (Some c) EmptyString s'
      | S k => done ++ _split_go k (Some c) (String c cur1) s'
      end
  end.

Definition _split (text : string) : list string :=
  _split_go O None EmptyString text.

(** [s.strip() == '']. *)
Definition is_blank (s : string) : bool := forallb_s isspace s.

(** The inner loop of [_wrap_chunks]: move chunks to the current line
    while [cur_len + len(chunk) <= width]. Returns the chunks taken, the
    length reached and the chunks left. *)
Fixpoint take_fitting (width cur_len : nat) (chunks : list string)
  : list string * nat * list string :=
  match chunks with
  | [] => ([], cur_len, [])
  | c :: cs =>
      let l := String.length c in
      if (cur_len + l <=? width)%nat then
        let '(taken, n, rest) := take_fitting width (cur_len + l) cs in
        (c :: taken, n, rest)
      else ([], cur_len, chunks)
  end.

(** [_handle_long_word] with [break_long_words] set: the first
    [space_left] bytes of the next chunk go to the current line. *)
Definition _handle_long_word (chunks cur_line : list string)
    (cur_len width : nat) : list string * list string :=
  let space_left := if (width <? 1)%nat then 1%nat
                    else (width - cur_len)%nat in
  match chunks with
  | c :: cs =>
      (cur_line ++ [substring 0 space_left c],
       substring space_left (String.length c) c :: cs)
  | [] => (cur_line, [])
  end.

(** One turn of the outer loop of [_wrap_chunks], for a line of [width]
    bytes after its indent: the chunks of the line built ([cur_line],
    possibly empty) and the chunks left. [have_lines] tells whether
    [lines] is non-empty. *)
Definition wrap_line (width : nat) (have_lines : bool)
    (chunks : list string) : list string * list string :=
  let chunks1 :=
    match chunks with
    | c :: cs => if have_lines && is_blank c then cs else chunks
    | [] => []
    end in
  let '(cur_line, cur_len, chunks2) := take_fitting width 0 chunks1 in
  let '(cur_line2, chunks3) :=
    match chunks2 with
    | c :: _ =>
        if (width <? String.length c)%nat
        then _handle_long_word chunks2 cur_line cur_len width
        else (cur_line, chunks2)
    | [] => (cur_line, chunks2)
    end in
  let cur_line3 :=
    match last cur_line2 with
    | Some c => if is_blank c then removelast cur_line2 else cur_line2
    | None => cur_line2
    end in
  (cur_line3, chunks3).

(** A wrapper object, with the three options the deck writer sets. The
    functions below are for a [width] that exceeds the length of both
    indents, as it does there (80 against 2). *)
Record TextWrapper := {
  initial_indent : string;
  subsequent_indent : string;
  width : nat
}.

(** What is left to wrap: every turn of the outer loop lowers it. *)
Definition weight (chunks : list string) : nat :=
  fold_right (fun c n => S (String.length c + n)) O chunks.

Fixpoint _wrap_chunks_go (fuel : nat) (tw : TextWrapper)
    (chunks lines : list string) : list string :=
  match fuel with
  | O => lines
  | S fuel' =>
      match chunks with
      | [] => lines
      | _ :: _ =>
          let indent := match lines with
                        | [] => initial_indent tw
                        | _ :: _ => subsequent_indent tw
                        end in
          let w := (width tw - String.length indent)%nat in
          let '(cur_line, rest) :=
            wrap_line w (negb (bool_decide (lines = []))) chunks in
          let lines' :=
            match cur_line with
            | [] => lines
            | _ :: _ => lines ++ [indent +:+ join EmptyString cur_line]
            end in
          _wrap_chunks_go fuel' tw rest lines'
      end
  end.

Definition _wrap_chunks (tw : TextWrapper) (chunks : list string)
  : list string :=
  _wrap_chunks_go (weight chunks) tw chunks [].

Definition wrap (tw : TextWrapper) (text : string) : list string :=
  _wrap_chunks tw (_split (_munge_whitespace text)).

Definition fill (tw : TextWrapper) (text : string) : string :=
  join (String "010" EmptyString) (wrap tw text).

End textwrap.

(** The line feed ["\n"] and the double quote. *)
Definition nl : string := String "010" EmptyString.

Definition dquote : string := String "034" EmptyString.

(** * Objects handed to the deck, and the outside world *)

(** Geometry and material objects are passed by reference and stamped in
    place ([geo.num = ...]), so they live in a store indexed by [loc]. The
    attribute [num] is absent until a deck sets it. *)
Definition loc := nat.

Record entity := {
  ent_comment : string;
  ent_string : string;
  ent_num : option Z
}.

Definition store := loc -> entity.

Definition set_num (l : loc) (n : Z) (h : store) : store :=
  fun l' =>
    if Nat.eqb l' l
    then {| ent_comment := ent_comment (h l);
            ent_string := ent_string (h l);
            ent_num := Some n |}
    else h l'.

(** A source and its distributions are only read. *)
Record dist := { dist_string : string }.

Record source_t := {
  src_string : string;
  src_dists : list dist
}.

(** What the two modules act on outside their objects: standard output
    (one entry per [print]), the files written, the notification service
    ([notify2]) and the shell commands handed to [subprocess.Popen]. The
    world is a willing one: a file can always be opened for writing, a
    notification shown and a shell started. *)
Record world := {
  stdout : list string;
  files : gmap string string;
  notify_app : option string;
  shown : list (string * string);
  spawned : list string
}.

Definition print (line : string) (w : world) : world :=
  {| stdout := stdout w ++ [line]; files := files w;
     notify_app := notify_app w; shown := shown w; spawned := spawned w |}.

Definition set_files (f : gmap string string) (w : world) : world :=
  {| stdout := stdout w; files := f;
     notify_app := notify_app w; shown := shown w; spawned := spawned w |}.

(** * [class mcnp_companion] *)

Module mcnp_companion.

(** The instance attributes. [__init__] sets [comment] to [matl_block]
    (and [command] for a known flavor); [geo_num] and [matl_num] appear
    with the first call of [geo] and [matl]; no method creates
    [data_block] or [def_num]. *)
Record t := {
  comment : string;
  filename : string;
  command : option string;
  intro_block : string;
  geo_block : string;
  cell_block : string;
  matl_block : string;
  geo_num : option Z;
  matl_num : option Z;
  data_block : option string;
  def_num : option Z
}.

Definition set_geo_block (v : string) (d : t) : t :=
  {| comment := comment d; filename := filename d; command := command d;
     intro_block := intro_block d; geo_block := v;
     cell_block := cell_block d; matl_block := matl_block d;
     geo_num := geo_num d; matl_num := matl_num d;
     data_block := data_block d; def_num := def_num d |}.

Definition set_matl_block (v : string) (d : t) : t :=
  {| comment := comment d; filename := filename d; command := command d;
     intro_block := intro_block d; geo_block := geo_block d;
     cell_block := cell_block d; matl_block := v;
     geo_num := geo_num d; matl_num := matl_num d;
     data_block := data_block d; def_num := def_num d |}.

Definition set_geo_num (v : Z) (d : t) : t :=
  {| comment := comment d; filename := filename d; command := command d;
     intro_block := intro_block d; geo_block := geo_block d;
     cell_block := cell_block d; matl_block := matl_block d;
     geo_num := Some v; matl_num := matl_num d;
     data_block := data_block d; def_num := def_num d |}.

Definition set_matl_num (v : Z) (d : t) : t :=
  {| comment := comment d; filename := filename d; command := command d;
     intro_block := intro_block d; geo_block := geo_block d;
     cell_block := cell_block d; matl_block := matl_block d;
     geo_num := geo_num d; matl_num := Some v;
     data_block := data_block d; def_num := def_num d |}.

Definition set_data_block (v : string) (d : t) : t :=
  {| comment := comment d; filename := filename d; command := command d;
     intro_block := intro_block d; geo_block := geo_block d;
     cell_block := cell_block d; matl_block := matl_block d;
     geo_num := geo_num d; matl_num := matl_num d;
     data_block := Some v; def_num := def_num d |}.

Definition set_def_num (v : Z) (d : t) : t :=
  {| comment := comment d; filename := filename d; command := command d;
     intro_block := intro_block d; geo_block := geo_block d;
     cell_block := cell_block d; matl_block := matl_block d;
     geo_num := geo_num d; matl_num := matl_num d;
     data_block := data_block d; def_num := Some v |}.

(** The state a method runs in: the instance, the objects it may be
    handed, and the world. *)
Record state := {
  self : t;
  heap : store;
  env : world
}.

(** Methods are state transformers that return a value or raise; what
    was changed before an exception stays changed. *)
Definition M (A : Type) : Type := state -> outcome A * state.

Definition raise {A} (e : exn) : M A := fun st => (Raise e, st).

#[global] Instance M_ret : MRet M := fun A a st => (Ok a, st).

#[global] Instance M_bind : MBind M := fun A B k m st =>
  match m st with
  | (Ok a, st') => k a st'
  | (Raise e, st') => (Raise e, st')
  end.

Definition lift {A} (o : outcome A) : M A := fun st => (o, st).

(** [self.name], for an attribute that may be absent. *)
Definition getattr {A} (name : string) (proj : t -> option A) : M A :=
  fun st =>
    match proj (self st) with
    | Some v => (Ok v, st)
    | None => (Raise (AttributeError name), st)
    end.

(** [self.name], for an attribute [__init__] has set. *)
Definition get {A} (proj : t -> A) : M A :=
  fun st => (Ok (proj (self st)), st).

(** [self.name = v]. *)
Definition setattr (upd : t -> t) : M unit :=
  fun st =>
    (Ok tt, {| self := upd (self st); heap := heap st; env := env st |}).

(** [obj.name] and [obj.num = n] for an object of the store. *)
Definition read {A} (l : loc) (proj : entity -> A) : M A :=
  fun st => (Ok (proj (heap st l)), st).

Definition stamp (l : loc) (n : Z) : M unit :=
  fun st => (Ok tt, {| self := self st; heap := set_num l n (heap st);
                       env := env st |}).

Definition io (f : world -> world) : M unit :=
  fun st =>
    (Ok tt, {| self := self st; heap := heap st; env := f (env st) |}).

(** [for x in xs: body]. *)
Fixpoint for_each {X} (xs : list X) (body : X -> M unit) : M unit :=
  match xs with
  | [] => mret tt
  | x :: xs' => body x ;; for_each xs' body
  end.

(** The iterable of a [for] whose argument defaults to [None]. *)
Definition iter {X} (xs : option (list X)) : M (list X) :=
  match xs with
  | Some l => mret l
  | None => raise (TypeError "'NoneType' object is not iterable")
  end.

(** [__init__(self, comment, filename, flavor='6')], from the store and
    the world it is called in. [flavor is '6'] compares identities;
    CPython shares every one-byte string, so on strings it holds exactly
    when [flavor] equals ["6"]. *)
Definition __init__ (comment filename flavor : string)
    (h : store) (w : world) : outcome unit * state :=
  let comment' := join " " (split comment) in
  let w1 := print ("Initialized file with comment " +:+ dquote +:+ comment'
                     +:+ dquote +:+ ".") w in
  let w2 := print ("Will be written to " +:+ filename +:+ ".inp.") w1 in
  let command :=
    if String.eqb flavor "6" then Some "mcnp6"
    else if String.eqb flavor "5" then Some "mcnp5"
    else if String.eqb flavor "x" then Some "mcnpx"
    else None in
  (Ok tt,
   {| self := {| comment := comment'; filename := filename;
                 command := command;
                 intro_block := EmptyString +:+ comment';
                 geo_block := EmptyString; cell_block := EmptyString;
                 matl_block := EmptyString;
                 geo_num := None; matl_num := None;
                 data_block := None; def_num := None |};
      heap := h; env := w2 |}).

(** The file object of [with open(path, 'w') as f]: opening truncates,
    [f.write] appends. *)
Definition open_w (path : string) : M unit :=
  io (fun w => set_files (<[path := EmptyString]> (files w)) w).

Definition write (path text : string) : M unit :=
  io (fun w => set_files (alter (fun s => s +:+ text) path (files w)) w).

Definition intro : textwrap.TextWrapper :=
  {| textwrap.initial_indent := "c ";
     textwrap.subsequent_indent := "c ";
     textwrap.width := 80 |}.

(** [run(self, remote, sys)]: writes the deck to [filename + '.inp'].
    Neither argument is used. *)
Definition run {Remote Sys : Type} (remote : Remote) (sys : Sys) : M unit :=
  name ← get filename;
  let f := name +:+ ".inp" in
  open_w f ;;
  name ← get filename;
  write f (name +:+ nl) ;;
  text ← get intro_block;
  write f (textwrap.fill intro text) ;;
  write f nl ;;
  write f ("c " +:+ center " Cells " 78 "-" +:+ nl) ;;
  write f nl ;;
  write f ("c " +:+ center " Geometry " 78 "-" +:+ nl) ;;
  block ← get geo_block;
  write f block ;;
  write f nl ;;
  write f ("c " +:+ center " Data " 78 "-" +:+ nl) ;;
  write f ("c " +:+ center " Materials " 78 "-" +:+ nl) ;;
  block ← get matl_block;
  write f block ;;
  write f nl.

(** [geo(self, geos=None)]; [geo_for] is the body of its loop. *)
Definition geo_for (g : loc) : M unit :=
  block ← get geo_block;
  c ← read g ent_comment;
  setattr (set_geo_block (block +:+ (c +:+ nl))) ;;
  block ← get geo_block;
  n ← getattr "geo_num" geo_num;
  setattr (set_geo_block (block +:+ (dec n +:+ "    "))) ;;
  block ← get geo_block;
  s ← read g ent_string;
  setattr (set_geo_block (block +:+ (s +:+ nl))) ;;
  n ← getattr "geo_num" geo_num;
  stamp g n ;;
  n ← getattr "geo_num" geo_num;
  setattr (set_geo_num (n + 10)).

Definition geo (geos : option (list loc)) : M unit :=
  setattr (set_geo_num 10) ;;
  gs ← iter geos;
  for_each gs geo_for.

(** [cell(self, cells=None)]: [pass]. *)
Definition cell {X} (cells : option (list X)) : M unit := mret tt.

(** [matl(self, matls=None)]; [matl_for] is the body of its loop. *)
Definition matl_for (m : loc) : M unit :=
  block ← get matl_block;
  c ← read m ent_comment;
  setattr (set_matl_block (block +:+ (c +:+ nl))) ;;
  block ← get matl_block;
  n ← getattr "matl_num" matl_num;
  setattr (set_matl_block (block +:+ ("m" +:+ dec n +:+ " "))) ;;
  block ← get matl_block;
  s ← read m ent_string;
  setattr (set_matl_block (block +:+ (s +:+ nl))) ;;
  n ← getattr "matl_num" matl_num;
  stamp m n ;;
  n ← getattr "matl_num" matl_num;
  setattr (set_matl_num (n + 1)).

Definition matl (matls : option (list loc)) : M unit :=
  setattr (set_matl_num 1) ;;
  ms ← iter matls;
  for_each ms matl_for.

(** [source(self, sources=None)]; [source_for] is the body of its outer
    loop and [dist_for] the body of the inner one. In an augmented
    assignment the attribute is loaded before the right-hand side is
    evaluated. *)
Definition dist_for (d : dist) : M unit :=
  block ← getattr "data_block" data_block;
  n ← getattr "def_num" def_num;
  setattr (set_data_block (block +:+ ("     sp" +:+ dec n +:+ "    "))) ;;
  block ← getattr "data_block" data_block;
  setattr (set_data_block (block +:+ ("     " +:+ dist_string d +:+ nl))) ;;
  n ← getattr "def_num" def_num;
  setattr (set_def_num (n + 1)).

Definition source_for (src : source_t) : M unit :=
  block ← getattr "data_block" data_block;
  setattr (set_data_block (block +:+ "sdef    ")) ;;
  block ← getattr "data_block" data_block;
  n ← getattr "def_num" def_num;
  s ← lift (percent (src_string src) n);
  setattr (set_data_block (block +:+ (s +:+ nl))) ;;
  for_each (src_dists src) dist_for.

Definition source (sources : option (list source_t)) : M unit :=
  ss ← iter sources;
  for_each ss source_for.

End mcnp_companion.

(** * [class runner] *)

Module runner.

Record t := { needs_to_run : bool }.

(** The command line assembled by [__init__]. *)
Definition cmd (filename command : string) : string :=
  "nohup " +:+ command +:+ " inp=" +:+ filename +:+ ".inp "
  +:+ "out=" +:+ filename +:+ ".out "
  +:+ "run=" +:+ filename +:+ "_runtpe "
  +:+ "mctal=" +:+ filename +:+ "_tallies.out & disown".

(** [__init__(self, filename, command, remote, sys, renderer=None)]:
    the instance built and the world it leaves. [remote] and [sys] are
    not used; for a [renderer] the body is [pass]. *)
Definition __init__ {Remote Sys Renderer : Type}
    (filename command : string) (remote : Remote) (sys : Sys)
    (renderer : option Renderer) (w : world) : t * world :=
  let needs_to_run := true in
  let app := Some "MCNP" in
  let c := cmd filename command in
  let notification := (command, "Will now run " +:+ c +:+ ".") in
  let shown' := shown w ++ [notification] in
  let spawned' := if needs_to_run then spawned w ++ [c] else spawned w in
  ({| needs_to_run := needs_to_run |},
   {| stdout := stdout w; files := files w; notify_app := app;
      shown := shown'; spawned := spawned' |}).

End runner.

(** * Specification-side vocabulary *)

Import mcnp_companion.

Arguments dec : simpl never.
Arguments center : simpl never.
Arguments textwrap.fill : simpl never.

(** The numbers [geo] and [matl] leave on the objects [ls], in order. *)
Definition ids (h : store) (ls : list loc) : list (option Z) :=
  map (fun l => ent_num (h l)) ls.

(** [first, first + step, ...]: [len] numbers. *)
Definition numbers (first step : Z) (len : nat) : list (option Z) :=
  map (fun i => Some (first + step * Z.of_nat i)) (seq 0 len).

(** The store after stamping [ls] with [n, n + step, ...] in order. *)
Fixpoint stamps (step n : Z) (ls : list loc) (h : store) : store :=
  match ls with
  | [] => h
  | l :: ls' => stamps step (n + step) ls' (set_num l n h)
  end.

(** The text [geo] appends for the objects [ls], numbered from [n]. *)
Fixpoint geo_lines (h : store) (n : Z) (ls : list loc) : string :=
  match ls with
  | [] => EmptyString
  | l :: ls' =>
      ent_comment (h l) +:+ nl +:+ dec n +:+ "    "
      +:+ ent_string (h l) +:+ nl +:+ geo_lines h (n + 10) ls'
  end.

(** The text [matl] appends for the objects [ls], numbered from [n]. *)
Fixpoint matl_lines (h : store) (n : Z) (ls : list loc) : string :=
  match ls with
  | [] => EmptyString
  | l :: ls' =>
      ent_comment (h l) +:+ nl +:+ "m" +:+ dec n +:+ " "
      +:+ ent_string (h l) +:+ nl +:+ matl_lines h (n + 1) ls'
  end.

(** Several calls of [geo] (of [matl]) in a row, one per batch. *)
Definition geo_calls (batches : list (list loc)) : M unit :=
  for_each batches (fun b => geo (Some b)).

Definition matl_calls (batches : list (list loc)) : M unit :=
  for_each batches (fun b => matl (Some b)).

(** The text [run] leaves in the deck file. *)
Definition render (d : t) : string :=
  filename d +:+ nl
  +:+ textwrap.fill intro (intro_block d) +:+ nl
  +:+ ("c " +:+ center " Cells " 78 "-" +:+ nl)
  +:+ nl
  +:+ ("c " +:+ center " Geometry " 78 "-" +:+ nl)
  +:+ geo_block d +:+ nl
  +:+ ("c " +:+ center " Data " 78 "-" +:+ nl)
  +:+ ("c " +:+ center " Materials " 78 "-" +:+ nl)
  +:+ matl_block d +:+ nl.

(** * Sample objects, worlds and decks *)

Definition blank : store :=
  fun _ => {| ent_comment := EmptyString; ent_string := EmptyString;
              ent_num := None |}.

Definition quiet : world :=
  {| stdout := []; files := ∅; notify_app := None; shown := [];
     spawned := [] |}.

(** A deck fresh from [__init__], with nothing said or written yet. *)
Definition fresh : state := snd (__init__ "test deck" "deck" "6" blank quiet).

(** The two objects of the shielding scenario, at locations 0 and 1. *)
Definition sphere_and_lead : store :=
  fun l =>
    match l with
    | O => {| ent_comment := "outer sphere"; ent_string := "-1 SO 10";
              ent_num := None |}
    | _ => {| ent_comment := "lead"; ent_string := "82000 1";
              ent_num := None |}
    end.

(** A deck on which the caller has set [data_block] and [def_num] by
    hand, as [source] needs. *)
Definition seeded : state :=
  {| self := set_def_num 1 (set_data_block EmptyString (self fresh));
     heap := heap fresh; env := env fresh |}.

(** The deck of the scenario: title (file name) "Shield Model", the
    header comment with its run of three spaces, one geometry object and
    one material object. *)
Definition shield_model : state :=
  let st1 := snd (__init__ "Simple shielding test case with extra   spaces"
                    "Shield Model" "6" sphere_and_lead quiet) in
  let st2 := snd (geo (Some [0%nat]) st1) in
  let st3 := snd (matl (Some [1%nat]) st2) in
  snd (run tt tt st3).

(** A world in which the deck [fresh] has been written and a finished
    output of an earlier run lies next to it. *)
Definition finished : world :=
  let w := env (snd (run tt tt fresh)) in
  set_files (<["deck.out" := "run terminated when it had used 1 minutes"]>
               (files w)) w.

(** * Vocabulary for the further properties *)

(** A format string without a percent sign. *)
Fixpoint no_percent (s : string) : bool :=
  match s with
  | EmptyString => true
  | String c s' => negb (Ascii.eqb c "%") && no_percent s'
  end.

(** The text [source] appends for the distributions [ds] of one source,
    numbered from [n]. *)
Fixpoint dist_lines (n : Z) (ds : list dist) : string :=
  match ds with
  | [] => EmptyString
  | d :: ds' =>
      "     sp" +:+ dec n +:+ "    " +:+ "     " +:+ dist_string d +:+ nl
      +:+ dist_lines (n + 1) ds'
  end.


(** [d] with its [data_block] and [def_num] replaced. *)
Definition with_data (b : option string) (n : option Z) (d : t) : t :=
  {| comment := comment d; filename := filename d; command := command d;
     intro_block := intro_block d; geo_block := geo_block d;
     cell_block := cell_block d; matl_block := matl_block d;
     geo_num := geo_num d; matl_num := matl_num d;
     data_block := b; def_num := n |}.

(** The distributions of all the sources of a list. *)
Definition total_dists (ss : list source_t) : nat :=
  fold_right (fun src k => (length (src_dists src) + k)%nat) O ss.

(** One call of a method of the deck, as a caller may issue it. *)
Inductive call :=
| Geo (geos : option (list loc))
| Cell
| Matl (matls : option (list loc))
| Source (sources : option (list source_t))
| Run.

Definition perform (c : call) : M unit :=
  match c with
  | Geo geos => geo geos
  | Cell => cell (@None (list loc))
  | Matl matls => matl matls
  | Source sources => source sources
  | Run => run tt tt
  end.

(** The state after a series of calls, the caller going on after a call
    that raised. *)
Fixpoint session (cs : list call) (st : state) : state :=
  match cs with
  | [] => st
  | c :: cs' => session cs' (snd (perform c st))
  end.

(** The attributes of a deck that [geo], [matl], [cell] and [run] have no
    statement on, and the part of the world that only [print] and the
    runner write. *)
Definition fixed_part (d : t) :=
  (comment d, filename d, command d, intro_block d, cell_block d,
   data_block d, def_num d).

Definition console (w : world) :=
  (stdout w, notify_app w, shown w, spawned w).

(** The bytes of a list of chunks. *)
Definition sumlen (l : list string) : nat :=
  fold_right (fun c n => (String.length c + n)%nat) O l.

(** A word as [str.split] returns them: not empty, free of whitespace. *)
Definition token (w : string) : Prop :=
  w <> EmptyString /\
  textwrap.forallb_s (fun c => negb (isspace c)) w = true.

(** A byte that is no whitespace, or the space itself. *)
Definition plain_byte (c : ascii) : bool :=
  negb (isspace c) || Ascii.eqb c " ".

(** Unfolds the monad of the methods and computes. *)
Ltac run_m :=
  unfold mbind, M_bind, mret, M_ret, getattr, get, setattr, read, stamp, io,
    lift, raise; simpl.

(** Settles a decidable side condition on closed terms. *)
Ltac decide_it := apply (bool_decide_unpack _); vm_compute; exact I.

(** * Strings *)

Lemma app_cons_s (c : ascii) (s u : string) :
  String c s +:+ u = String c (s +:+ u).
Proof. reflexivity. Qed.

Lemma app_nil_r_s (s : string) : s +:+ EmptyString = s.
Proof.
  induction s as [|c s IH]; [reflexivity|].
  now rewrite app_cons_s, IH.
Qed.

Lemma app_assoc_s (a b c : string) : (a +:+ b) +:+ c = a +:+ (b +:+ c).
Proof.
  induction a as [|x a IH]; [reflexivity|].
  now rewrite !app_cons_s, IH.
Qed.

Lemma length_app_s (a b : string) :
  String.length (a +:+ b) = (String.length a + String.length b)%nat.
Proof.
  induction a as [|x a IH]; [reflexivity|].
  rewrite app_cons_s. simpl. now rewrite IH.
Qed.

Lemma prefix_app (s u : string) : String.prefix s (s +:+ u) = true.
Proof.
  induction s as [|c s IH]; [now destruct u|].
  rewrite app_cons_s. simpl. destruct (ascii_dec c c); [exact IH | congruence].
Qed.

Lemma infix_here (s a b : string) : infix s (a +:+ s +:+ b).
Proof. now exists a, b. Qed.

Lemma infix_trans (s u v : string) : infix s u -> infix u v -> infix s v.
Proof.
  intros (a & b & ->) (a' & b' & ->).
  exists (a' +:+ a), (b +:+ b'). now rewrite !app_assoc_s.
Qed.

Lemma infix_app_r (s a u : string) : infix s u -> infix s (a +:+ u).
Proof.
  intros (x & y & ->). exists (a +:+ x), y. now rewrite app_assoc_s.
Qed.

Lemma infix_app_l (s u b : string) : infix s u -> infix s (u +:+ b).
Proof.
  intros (x & y & ->). exists x, (y +:+ b). now rewrite !app_assoc_s.
Qed.

Lemma infixb_prefix (s u : string) :
  String.prefix s u = true -> infixb s u = true.
Proof.
  intros H. destruct u; unfold infixb; fold infixb; now rewrite H.
Qed.

Lemma infixb_complete (s u : string) : infix s u -> infixb s u = true.
Proof.
  intros (a & b & ->). induction a as [|c a IH].
  - change (infixb s (s +:+ b) = true). apply infixb_prefix, prefix_app.
  - rewrite app_cons_s. simpl. rewrite IH. apply orb_true_r.
Qed.

(** * Wrapping terminates within its fuel *)

Import textwrap.

Lemma weight_cons c cs :
  weight (c :: cs) = S (String.length c + weight cs).
Proof. reflexivity. Qed.

Lemma length_substring_le n m s :
  (String.length (substring n m s) <= String.length s - n)%nat.
Proof.
  revert n m. induction s as [|c s IH]; intros n m.
  - destruct n, m; simpl; lia.
  - destruct n as [|n].
    + destruct m as [|m]; simpl; [lia|]. specialize (IH 0%nat m). lia.
    + simpl. apply IH.
Qed.

Lemma take_fitting_weight w n chunks :
  (weight (take_fitting w n chunks).2 <= weight chunks)%nat.
Proof.
  revert n. induction chunks as [|c cs IH]; intros n; simpl; [lia|].
  destruct (n + String.length c <=? w)%nat; simpl; [|lia].
  specialize (IH (n + String.length c)%nat).
  destruct (take_fitting w (n + String.length c) cs) as [[taken k] rest].
  simpl in *. lia.
Qed.

(** Every turn of the outer loop of [_wrap_chunks] uses up a chunk or a
    piece of one, as long as a line has room for one byte. *)
Lemma wrap_line_weight w have chunks :
  (1 <= w)%nat -> chunks <> [] ->
  (weight (wrap_line w have chunks).2 < weight chunks)%nat.
Proof.
  intros Hw Hne. destruct chunks as [|c cs]; [congruence|].
  unfold wrap_line. cbv iota.
  set (chunks1 := if have && is_blank c then cs else c :: cs).
  assert (H1 : (weight chunks1 <= weight (c :: cs))%nat).
  { subst chunks1. destruct (have && is_blank c); rewrite ?weight_cons; lia. }
  pose proof (take_fitting_weight w 0 chunks1) as H2.
  assert (Hstrict :
    (weight chunks1 < weight (c :: cs))%nat \/
    (weight (take_fitting w 0 chunks1).2 < weight (c :: cs))%nat \/
    take_fitting w 0 chunks1 = ([], 0%nat, c :: cs)
    /\ (w < String.length c)%nat).
  { subst chunks1. destruct (have && is_blank c).
    - left. rewrite weight_cons. lia.
    - right. simpl take_fitting. rewrite weight_cons.
      destruct (Nat.leb_spec (String.length c) w).
      + left. pose proof (take_fitting_weight w (String.length c) cs).
        destruct (take_fitting w (String.length c) cs) as [[taken k] rest].
        simpl in *. lia.
      + right. split; [reflexivity|lia]. }
  destruct (take_fitting w 0 chunks1) as [[cur_line cur_len] chunks2].
  simpl in H2.
  destruct chunks2 as [|x xs]; [simpl; lia|].
  destruct (Nat.ltb_spec w (String.length x)) as [Hlt|Hge].
  - unfold _handle_long_word.
    destruct (Nat.ltb_spec w 1) as [|_]; [lia|]. simpl.
    pose proof (length_substring_le (w - cur_len) (String.length x) x).
    rewrite weight_cons in *.
    destruct Hstrict as [?|[?|[[= -> -> ->] ?]]]; simpl in *; lia.
  - simpl. rewrite weight_cons in *.
    destruct Hstrict as [?|[?|[[= -> -> ->] ?]]]; simpl in *; lia.
Qed.

(** [_wrap_chunks] starts its loop with fuel [weight chunks]; any larger
    amount gives the same lines, so the loop is never cut short. *)
Lemma wrap_fuel_suffices tw :
  (String.length (initial_indent tw) < width tw)%nat ->
  (String.length (subsequent_indent tw) < width tw)%nat ->
  forall f1 f2 chunks lines,
    (weight chunks <= f1)%nat -> (weight chunks <= f2)%nat ->
    _wrap_chunks_go f1 tw chunks lines = _wrap_chunks_go f2 tw chunks lines.
Proof.
  intros Hi Hs. induction f1 as [|f1 IH]; intros f2 chunks lines H1 H2.
  - destruct chunks as [|c cs]; [now destruct f2|].
    rewrite weight_cons in H1. lia.
  - destruct chunks as [|c cs]; [now destruct f2|].
    destruct f2 as [|f2]; [rewrite weight_cons in H2; lia|].
    simpl _wrap_chunks_go.
    set (indent := match lines with
                   | [] => initial_indent tw
                   | _ :: _ => subsequent_indent tw
                   end).
    assert (Hw : (1 <= width tw - String.length indent)%nat)
      by (subst indent; destruct lines; lia).
    pose proof (wrap_line_weight (width tw - String.length indent)
                  (negb (bool_decide (lines = []))) (c :: cs) Hw
                  ltac:(discriminate)) as Hlt.
    destruct (wrap_line _ _ (c :: cs)) as [cur_line rest]. simpl in Hlt.
    rewrite weight_cons in H1, H2. apply IH; lia.
Qed.

(** The wrapper of the deck writer is such a wrapper. *)
Lemma intro_fuel_suffices fuel chunks :
  (weight chunks <= fuel)%nat ->
  _wrap_chunks_go fuel intro chunks [] = _wrap_chunks intro chunks.
Proof.
  intros H. unfold _wrap_chunks.
  apply wrap_fuel_suffices; simpl; lia.
Qed.

(** * The store *)

Lemma set_num_comment l n h l' :
  ent_comment (set_num l n h l') = ent_comment (h l').
Proof.
  unfold set_num. destruct (Nat.eqb_spec l' l); [subst|]; reflexivity.
Qed.

Lemma set_num_string l n h l' :
  ent_string (set_num l n h l') = ent_string (h l').
Proof.
  unfold set_num. destruct (Nat.eqb_spec l' l); [subst|]; reflexivity.
Qed.

Lemma set_num_eq l n h : ent_num (set_num l n h l) = Some n.
Proof. unfold set_num. now rewrite Nat.eqb_refl. Qed.

Lemma set_num_ne l n h l' : l' <> l -> set_num l n h l' = h l'.
Proof. intros H. unfold set_num. now destruct (Nat.eqb_spec l' l). Qed.

Lemma stamps_comment step n ls h l :
  ent_comment (stamps step n ls h l) = ent_comment (h l).
Proof.
  revert n h. induction ls as [|x ls IH]; intros n h; simpl; [reflexivity|].
  now rewrite IH, set_num_comment.
Qed.

Lemma stamps_string step n ls h l :
  ent_string (stamps step n ls h l) = ent_string (h l).
Proof.
  revert n h. induction ls as [|x ls IH]; intros n h; simpl; [reflexivity|].
  now rewrite IH, set_num_string.
Qed.

Lemma stamps_other step n ls h l : l ∉ ls -> stamps step n ls h l = h l.
Proof.
  revert n h. induction ls as [|x ls IH]; intros n h Hl; simpl; [reflexivity|].
  apply not_elem_of_cons in Hl as [Hx Hls].
  rewrite IH by assumption. now apply set_num_ne.
Qed.

Lemma numbers_succ first step len :
  numbers first step (S len) =
  Some first :: numbers (first + step) step len.
Proof.
  unfold numbers. simpl. f_equal; [f_equal; lia|].
  rewrite <- seq_shift, map_map. apply map_ext. intros i. f_equal. lia.
Qed.

Lemma stamps_ids step n ls h :
  NoDup ls -> ids (stamps step n ls h) ls = numbers n step (length ls).
Proof.
  revert n h. induction ls as [|l ls IH]; intros n h Hnd; [reflexivity|].
  apply NoDup_cons in Hnd as [Hl Hnd].
  change (length (l :: ls)) with (S (length ls)).
  rewrite numbers_succ. unfold ids in *. simpl. f_equal.
  - rewrite stamps_other by assumption. apply set_num_eq.
  - now apply IH.
Qed.

Lemma numbers_NoDup first step len :
  step <> 0 -> NoDup (numbers first step len).
Proof.
  intros Hs. unfold numbers. apply NoDup_fmap_2.
  - intros i j [= H]. nia.
  - apply NoDup_ListNoDup, seq_NoDup.
Qed.

(** * The numbering loops *)

Lemma geo_lines_set_num l k h n ls :
  geo_lines (set_num l k h) n ls = geo_lines h n ls.
Proof.
  revert n. induction ls as [|x ls IH]; intros n; simpl; [reflexivity|].
  now rewrite IH, set_num_comment, set_num_string.
Qed.

Lemma matl_lines_set_num l k h n ls :
  matl_lines (set_num l k h) n ls = matl_lines h n ls.
Proof.
  revert n. induction ls as [|x ls IH]; intros n; simpl; [reflexivity|].
  now rewrite IH, set_num_comment, set_num_string.
Qed.

(** One turn of the loop of [geo], from a deck whose counter is [n]. *)
Lemma geo_for_ok g d h w n :
  geo_num d = Some n ->
  geo_for g {| self := d; heap := h; env := w |} =
  (Ok tt,
   {| self := set_geo_num (n + 10)
                (set_geo_block (geo_block d +:+ geo_lines h n [g]) d);
      heap := set_num g n h; env := w |}).
Proof.
  intros Hn. destruct d; simpl in *; subst. unfold geo_for. run_m.
  unfold set_geo_num, set_geo_block; simpl.
  rewrite !app_assoc_s, app_nil_r_s. reflexivity.
Qed.

Lemma geo_loop ls : forall d h w n,
  geo_num d = Some n ->
  for_each ls geo_for {| self := d; heap := h; env := w |} =
  (Ok tt,
   {| self := set_geo_num (n + 10 * Z.of_nat (length ls))
                (set_geo_block (geo_block d +:+ geo_lines h n ls) d);
      heap := stamps 10 n ls h; env := w |}).
Proof.
  induction ls as [|g ls IH]; intros d h w n Hn.
  - destruct d; simpl in *; subst. unfold set_geo_num, set_geo_block; simpl.
    rewrite app_nil_r_s, Z.add_0_r. reflexivity.
  - simpl for_each. unfold mbind, M_bind at 1.
    rewrite (geo_for_ok g d h w n Hn).
    rewrite (IH _ _ _ (n + 10)) by reflexivity.
    destruct d; simpl in *. unfold set_geo_num, set_geo_block; simpl.
    rewrite geo_lines_set_num, app_nil_r_s, !app_assoc_s.
    replace (n + 10 + 10 * Z.of_nat (length ls))
      with (n + 10 * Z.of_nat (S (length ls))) by lia.
    reflexivity.
Qed.

(** A call of [geo] on a list never raises; it restarts the counter at 10,
    whatever it was. *)
Lemma geo_ok geos d h w :
  geo (Some geos) {| self := d; heap := h; env := w |} =
  (Ok tt,
   {| self := set_geo_num (10 + 10 * Z.of_nat (length geos))
                (set_geo_block (geo_block d +:+ geo_lines h 10 geos) d);
      heap := stamps 10 10 geos h; env := w |}).
Proof.
  unfold geo. run_m. rewrite (geo_loop geos _ h w 10) by reflexivity.
  destruct d; reflexivity.
Qed.

Lemma matl_for_ok m d h w n :
  matl_num d = Some n ->
  matl_for m {| self := d; heap := h; env := w |} =
  (Ok tt,
   {| self := set_matl_num (n + 1)
                (set_matl_block (matl_block d +:+ matl_lines h n [m]) d);
      heap := set_num m n h; env := w |}).
Proof.
  intros Hn. destruct d; simpl in *; subst. unfold matl_for. run_m.
  unfold set_matl_num, set_matl_block; simpl.
  rewrite !app_assoc_s, app_nil_r_s. reflexivity.
Qed.

Lemma matl_loop ls : forall d h w n,
  matl_num d = Some n ->
  for_each ls matl_for {| self := d; heap := h; env := w |} =
  (Ok tt,
   {| self := set_matl_num (n + 1 * Z.of_nat (length ls))
                (set_matl_block (matl_block d +:+ matl_lines h n ls) d);
      heap := stamps 1 n ls h; env := w |}).
Proof.
  induction ls as [|m ls IH]; intros d h w n Hn.
  - destruct d; simpl in *; subst. unfold set_matl_num, set_matl_block; simpl.
    rewrite app_nil_r_s, Z.add_0_r. reflexivity.
  - simpl for_each. unfold mbind, M_bind at 1.
    rewrite (matl_for_ok m d h w n Hn).
    rewrite (IH _ _ _ (n + 1)) by reflexivity.
    destruct d; simpl in *. unfold set_matl_num, set_matl_block; simpl.
    rewrite matl_lines_set_num, app_nil_r_s, !app_assoc_s.
    replace (n + 1 + 1 * Z.of_nat (length ls))
      with (n + 1 * Z.of_nat (S (length ls))) by lia.
    reflexivity.
Qed.

Lemma matl_ok matls d h w :
  matl (Some matls) {| self := d; heap := h; env := w |} =
  (Ok tt,
   {| self := set_matl_num (1 + 1 * Z.of_nat (length matls))
                (set_matl_block (matl_block d +:+ matl_lines h 1 matls) d);
      heap := stamps 1 1 matls h; env := w |}).
Proof.
  unfold matl. run_m. rewrite (matl_loop matls _ h w 1) by reflexivity.
  destruct d; reflexivity.
Qed.

(** With the default argument the loop has nothing to iterate over; the
    counter has been reset by then. *)
Lemma geo_None d h w :
  geo None {| self := d; heap := h; env := w |} =
  (Raise (TypeError "'NoneType' object is not iterable"),
   {| self := set_geo_num 10 d; heap := h; env := w |}).
Proof. reflexivity. Qed.

(** Several calls in a row: every batch is numbered from 10 again. *)
Lemma geo_calls_ids batches : forall st,
  NoDup (concat batches) ->
  fst (geo_calls batches st) = Ok tt /\
  ids (heap (snd (geo_calls batches st))) (concat batches) =
  concat (map (fun b => numbers 10 10 (length b)) batches) /\
  forall l, l ∉ concat batches ->
            heap (snd (geo_calls batches st)) l = heap st l.
Proof.
  induction batches as [|b bs IH]; intros [d h w] Hnd.
  - repeat split.
  - simpl in Hnd. apply NoDup_app in Hnd as (Hb & Hdisj & Hbs).
    unfold geo_calls. simpl for_each. unfold mbind, M_bind at 1 2 3.
    rewrite geo_ok.
    match goal with |- context [for_each bs _ ?s] =>
      destruct (IH s Hbs) as (Hok & Hids & Hframe); fold (geo_calls bs s) end.
    split; [exact Hok|]. split.
    + simpl. unfold ids in *. rewrite map_app. f_equal; [|exact Hids].
      rewrite <- (stamps_ids 10 10 b h Hb). apply map_ext_in.
      intros l Hl. rewrite Hframe; [reflexivity|].
      apply Hdisj. now apply list_elem_of_In.
    + intros l Hl. simpl in Hl. apply not_elem_of_app in Hl as [Hl1 Hl2].
      rewrite Hframe by assumption. simpl. now apply stamps_other.
Qed.

(** ** C1 *)

(** C1, as stated, fails: two geometry objects added to one deck by two
    calls of [geo] both get the number 10, so the numbers are not
    10, 20, they are not unique, and 10 is used twice. (And an object
    listed twice in one call keeps the later number only.) *)
Lemma geo_ids_across_calls_counterexample :
  ids (heap (snd (geo (Some [0%nat; 0%nat]) fresh))) [0%nat; 0%nat]
  = [Some 20; Some 20] /\
  NoDup [0%nat; 1%nat] /\
  fst (geo_calls [[0%nat]; [1%nat]] fresh) = Ok tt /\
  ids (heap (snd (geo_calls [[0%nat]; [1%nat]] fresh))) [0%nat; 1%nat]
  = [Some 10; Some 10] /\
  ids (heap (snd (geo_calls [[0%nat]; [1%nat]] fresh))) [0%nat; 1%nat]
  <> numbers 10 10 2 /\
  ~ NoDup (ids (heap (snd (geo_calls [[0%nat]; [1%nat]] fresh)))
             [0%nat; 1%nat]).
Proof.
  split; [reflexivity|].
  split; [apply (bool_decide_unpack _); vm_compute; exact I|].
  split; [reflexivity|]. split; [reflexivity|]. split.
  - vm_compute. discriminate.
  - vm_compute. intros H. apply NoDup_cons in H as [H _].
    apply H. left.
Qed.

(** C1 (amended): for every deck and every list of N distinct geometry
    objects handed to one call of [geo], the call succeeds and the numbers
    stamped on them are 10, 20, ..., 10N in the order of the list, without
    repetition. The deck is arbitrary: each call numbers from 10 again. *)
Theorem geo_ids_within_call (st : state) (geos : list loc) :
  NoDup geos ->
  fst (geo (Some geos) st) = Ok tt /\
  ids (heap (snd (geo (Some geos) st))) geos = numbers 10 10 (length geos) /\
  NoDup (ids (heap (snd (geo (Some geos) st))) geos).
Proof.
  intros Hnd. destruct st as [d h w]. rewrite geo_ok. simpl.
  rewrite stamps_ids by assumption.
  repeat split. now apply numbers_NoDup.
Qed.

Lemma geo_ids_within_call_witness :
  ids (heap (snd (geo (Some [3%nat; 1%nat; 2%nat]) fresh)))
    [3%nat; 1%nat; 2%nat]
  = [Some 10; Some 20; Some 30].
Proof.
  apply (geo_ids_within_call fresh [3%nat; 1%nat; 2%nat]).
  apply (bool_decide_unpack _); vm_compute; exact I.
Defined.

(** ** C8 *)

(** C8, as stated, fails: two material objects added to one deck by two
    calls of [matl] both get the number 1, so the numbers are not 1, 2 and
    they are not unique. (And an object listed twice in one call keeps the
    later number only.) *)
Lemma matl_ids_across_calls_counterexample :
  ids (heap (snd (matl (Some [0%nat; 0%nat]) fresh))) [0%nat; 0%nat]
  = [Some 2; Some 2] /\
  NoDup [0%nat; 1%nat] /\
  fst (matl_calls [[0%nat]; [1%nat]] fresh) = Ok tt /\
  ids (heap (snd (matl_calls [[0%nat]; [1%nat]] fresh))) [0%nat; 1%nat]
  = [Some 1; Some 1] /\
  ids (heap (snd (matl_calls [[0%nat]; [1%nat]] fresh))) [0%nat; 1%nat]
  <> numbers 1 1 2 /\
  ~ NoDup (ids (heap (snd (matl_calls [[0%nat]; [1%nat]] fresh)))
             [0%nat; 1%nat]).
Proof.
  split; [reflexivity|].
  split; [apply (bool_decide_unpack _); vm_compute; exact I|].
  split; [reflexivity|]. split; [reflexivity|]. split.
  - vm_compute. discriminate.
  - vm_compute. intros H. apply NoDup_cons in H as [H _].
    apply H. left.
Qed.

(** C8 (amended): for every deck and every list of M distinct material
    objects handed to one call of [matl], the call succeeds and the
    numbers stamped on them are 1, 2, ..., M in the order of the list,
    without repetition. Each call numbers from 1 again. *)
Theorem matl_ids_within_call (st : state) (matls : list loc) :
  NoDup matls ->
  fst (matl (Some matls) st) = Ok tt /\
  ids (heap (snd (matl (Some matls) st))) matls
  = numbers 1 1 (length matls) /\
  NoDup (ids (heap (snd (matl (Some matls) st))) matls).
Proof.
  intros Hnd. destruct st as [d h w]. rewrite matl_ok. simpl.
  rewrite stamps_ids by assumption.
  repeat split. now apply numbers_NoDup.
Qed.

Lemma matl_ids_within_call_witness :
  ids (heap (snd (matl (Some [3%nat; 1%nat; 2%nat]) fresh)))
    [3%nat; 1%nat; 2%nat]
  = [Some 1; Some 2; Some 3].
Proof.
  apply (matl_ids_within_call fresh [3%nat; 1%nat; 2%nat]).
  apply (bool_decide_unpack _); vm_compute; exact I.
Defined.

(** * Writing the deck *)

(** [run] never raises, touches only the deck file, and leaves [render]
    of the deck in it, whatever the file held before. *)
Lemma run_writes {Remote Sys : Type} (remote : Remote) (sys : Sys) d h w :
  run remote sys {| self := d; heap := h; env := w |} =
  (Ok tt,
   {| self := d; heap := h;
      env := set_files (<[filename d +:+ ".inp" := render d]> (files w)) w |}).
Proof.
  cbv beta iota zeta delta
    [run open_w write io get mbind M_bind mret M_ret set_files
     self heap env stdout files notify_app shown spawned].
  rewrite !alter_insert_eq.
  unfold render. rewrite !app_assoc_s. reflexivity.
Qed.

(** ** C5 *)

(** C5: [run] serialises the deck as a function of the deck alone. For
    every deck [d], whatever the store, the world and the two unused
    arguments, [run] succeeds, leaves the deck and the store as they were
    and the text [render d] in the deck file; a second call right after
    the first ends in the very same state, hence with byte-identical
    output; so does a call from any other store and world. *)
Theorem render_is_pure {Remote Sys : Type} (r1 r2 : Remote) (s1 s2 : Sys)
    (d : t) (h h' : store) (w w' : world) :
  let st := {| self := d; heap := h; env := w |} in
  let st1 := snd (run r1 s1 st) in
  fst (run r1 s1 st) = Ok tt /\
  self st1 = d /\ heap st1 = h /\
  files (env st1) !! (filename d +:+ ".inp") = Some (render d) /\
  run r2 s2 st1 = (Ok tt, st1) /\
  files (env (snd (run r2 s2 {| self := d; heap := h'; env := w' |})))
    !! (filename d +:+ ".inp") = Some (render d).
Proof.
  intros st st1. subst st st1. rewrite !run_writes. simpl.
  rewrite run_writes. simpl. unfold set_files; simpl.
  rewrite !lookup_insert_eq, insert_insert_eq. repeat split.
Qed.

(** ** C6 *)

Lemma geo_lines_content h n ls l :
  l ∈ ls -> infix (ent_string (h l)) (geo_lines h n ls).
Proof.
  revert n. induction ls as [|x ls IH]; intros n Hl.
  - now apply elem_of_nil in Hl.
  - apply elem_of_cons in Hl as [->|Hl]; simpl.
    + do 4 apply infix_app_r.
      exists EmptyString, (nl +:+ geo_lines h (n + 10) ls). reflexivity.
    + do 6 apply infix_app_r. now apply IH.
Qed.

Lemma matl_lines_content h n ls l :
  l ∈ ls -> infix (ent_string (h l)) (matl_lines h n ls).
Proof.
  revert n. induction ls as [|x ls IH]; intros n Hl.
  - now apply elem_of_nil in Hl.
  - apply elem_of_cons in Hl as [->|Hl]; simpl.
    + do 5 apply infix_app_r.
      exists EmptyString, (nl +:+ matl_lines h (n + 1) ls). reflexivity.
    + do 7 apply infix_app_r. now apply IH.
Qed.

Lemma geo_block_rendered d : infix (geo_block d) (render d).
Proof.
  unfold render. do 7 apply infix_app_r.
  apply infix_here with (a := EmptyString).
Qed.

Lemma matl_block_rendered d : infix (matl_block d) (render d).
Proof.
  unfold render. do 11 apply infix_app_r.
  apply infix_here with (a := EmptyString).
Qed.

(** C6, as stated, fails for sources: the content of a source is a format
    string, and what reaches the data block is the result of formatting it
    with the distribution counter. The content ["x=%d"] occurs neither in
    the data block nor in the deck file. *)
Lemma source_content_counterexample :
  fst (source (Some [ {| src_string := "x=%d"; src_dists := [] |} ]) seeded)
  = Ok tt /\
  data_block
    (self (snd (source (Some [ {| src_string := "x=%d"; src_dists := [] |} ])
                  seeded)))
  = Some ("sdef    x=1" +:+ nl) /\
  ~ infix "x=%d" ("sdef    x=1" +:+ nl) /\
  ~ infix "x=%d"
      (render
         (self (snd (source
                       (Some [ {| src_string := "x=%d"; src_dists := [] |} ])
                       seeded)))).
Proof.
  split; [reflexivity|]. split; [reflexivity|].
  split; intros H; apply infixb_complete in H; vm_compute in H;
    discriminate H.
Qed.

(** C6 (amended): for every geometry object handed to [geo] and every
    material object handed to [matl], the call leaves the object's content
    string as it was, and that string occurs verbatim in the block of its
    category and in the text [run] then writes. *)
Theorem content_appears_verbatim (st : state) (ls : list loc) (l : loc) :
  l ∈ ls ->
  (ent_string (heap (snd (geo (Some ls) st)) l) = ent_string (heap st l) /\
   infix (ent_string (heap st l)) (geo_block (self (snd (geo (Some ls) st)))) /\
   infix (ent_string (heap st l)) (render (self (snd (geo (Some ls) st)))))
  /\
  (ent_string (heap (snd (matl (Some ls) st)) l) = ent_string (heap st l) /\
   infix (ent_string (heap st l))
     (matl_block (self (snd (matl (Some ls) st)))) /\
   infix (ent_string (heap st l)) (render (self (snd (matl (Some ls) st))))).
Proof.
  intros Hl. destruct st as [d h w]. rewrite geo_ok, matl_ok. simpl.
  rewrite !stamps_string.
  assert (Hg : infix (ent_string (h l)) (geo_block d +:+ geo_lines h 10 ls))
    by (apply infix_app_r; now apply geo_lines_content).
  assert (Hm : infix (ent_string (h l)) (matl_block d +:+ matl_lines h 1 ls))
    by (apply infix_app_r; now apply matl_lines_content).
  repeat split; try assumption.
  - eapply infix_trans; [exact Hg|]. apply geo_block_rendered.
  - eapply infix_trans; [exact Hm|]. apply matl_block_rendered.
Qed.

Lemma content_appears_verbatim_witness :
  infix "-1 SO 10"
    (geo_block
       (self (snd (geo (Some [0%nat])
                     {| self := self fresh; heap := sphere_and_lead;
                        env := quiet |})))).
Proof.
  apply (content_appears_verbatim
           {| self := self fresh; heap := sphere_and_lead; env := quiet |}
           [0%nat] 0%nat).
  apply (bool_decide_unpack _); vm_compute; exact I.
Defined.

(** ** C7 *)

Lemma land_bit0_le m w : (Nat.land (Nat.land m w) 1 <= m mod 2)%nat.
Proof.
  change 1%nat with (Nat.ones 1). rewrite Nat.land_ones.
  change (2 ^ 1)%nat with 2%nat.
  rewrite <- !Nat.bit0_mod, Nat.land_spec.
  destruct (Nat.testbit m 0), (Nat.testbit w 0); simpl; lia.
Qed.

Lemma length_repeat_char c n : String.length (repeat_char c n) = n.
Proof. induction n; simpl; congruence. Qed.

(** A label no longer than the field is padded to the field exactly. *)
Lemma center_length s width c :
  (String.length s <= width)%nat -> String.length (center s width c) = width.
Proof.
  intros Hle. unfold center.
  destruct (Nat.leb_spec width (String.length s)) as [Hge|Hlt]; [lia|].
  rewrite !length_app_s, !length_repeat_char.
  pose proof (land_bit0_le (width - String.length s) width).
  pose proof (Nat.div_mod_eq (width - String.length s) 2). lia.
Qed.

(** C7: in the scenario the geometry object gets number 10 and the
    material object number 1, the header is kept with single spaces, and
    the file written is the one below: the header wrapped after the
    collapse, each banner label centered between dashes in a field of 78
    bytes (35 + 7 + 36, 34 + 10 + 34, 36 + 6 + 36, 33 + 11 + 34). *)
Theorem shield_model_scenario :
  ent_num (heap shield_model 0%nat) = Some 10 /\
  ent_num (heap shield_model 1%nat) = Some 1 /\
  intro_block (self shield_model)
  = "Simple shielding test case with extra spaces" /\
  files (env shield_model) !! "Shield Model.inp"
  = Some ("Shield Model" +:+ nl
          +:+ "c Simple shielding test case with extra spaces" +:+ nl
          +:+ "c " +:+ repeat_char "-" 35 +:+ " Cells "
          +:+ repeat_char "-" 36 +:+ nl
          +:+ nl
          +:+ "c " +:+ repeat_char "-" 34 +:+ " Geometry "
          +:+ repeat_char "-" 34 +:+ nl
          +:+ "outer sphere" +:+ nl
          +:+ "10    -1 SO 10" +:+ nl
          +:+ nl
          +:+ "c " +:+ repeat_char "-" 36 +:+ " Data "
          +:+ repeat_char "-" 36 +:+ nl
          +:+ "c " +:+ repeat_char "-" 33 +:+ " Materials "
          +:+ repeat_char "-" 34 +:+ nl
          +:+ "lead" +:+ nl
          +:+ "m1 82000 1" +:+ nl
          +:+ nl) /\
  String.length (center " Cells " 78 "-") = 78%nat /\
  String.length (center " Geometry " 78 "-") = 78%nat /\
  String.length (center " Data " 78 "-") = 78%nat /\
  String.length (center " Materials " 78 "-") = 78%nat.
Proof.
  repeat split; vm_compute; reflexivity.
Qed.

(** ** C4 and C10 *)

(** The first statement of the loop of [source] on a deck without
    [data_block], and the second one on a deck without [def_num]. *)
Lemma source_for_fails src d h w :
  def_num d = None ->
  source_for src {| self := d; heap := h; env := w |} =
  match data_block d with
  | None =>
      (Raise (AttributeError "data_block"),
       {| self := d; heap := h; env := w |})
  | Some b =>
      (Raise (AttributeError "def_num"),
       {| self := set_data_block (b +:+ "sdef    ") d; heap := h; env := w |})
  end.
Proof.
  intros Hn. destruct d; simpl in *; subst. unfold source_for. run_m.
  destruct data_block0; reflexivity.
Qed.

(** C4: on every deck whose distribution counter [def_num] has not been
    set, [source] with a non-empty list of sources raises, inside the
    call, the missing-state error of the runtime ([AttributeError] on the
    attribute that is not there): on [data_block] with the deck untouched
    when that is missing too, on [def_num] otherwise, the text ["sdef    "]
    already appended. *)
Theorem source_before_counter_fails (st : state) (sources : list source_t) :
  sources <> [] ->
  def_num (self st) = None ->
  source (Some sources) st =
  match data_block (self st) with
  | None => (Raise (AttributeError "data_block"), st)
  | Some b =>
      (Raise (AttributeError "def_num"),
       {| self := set_data_block (b +:+ "sdef    ") (self st);
          heap := heap st; env := env st |})
  end.
Proof.
  intros Hne Hn. destruct sources as [|src rest]; [congruence|].
  destruct st as [d h w]. simpl in Hn.
  cbv beta iota delta [source iter for_each mbind M_bind mret M_ret].
  rewrite (source_for_fails src d h w Hn).
  cbn [self heap env]. destruct (data_block d); reflexivity.
Qed.

Lemma source_before_counter_fails_witness :
  source (Some [ {| src_string := "x=%d"; src_dists := [] |} ]) fresh
  = (Raise (AttributeError "data_block"), fresh).
Proof.
  apply (source_before_counter_fails fresh
           [ {| src_string := "x=%d"; src_dists := [] |} ]).
  - discriminate.
  - reflexivity.
Defined.

(** No method creates [data_block] or [def_num]: on a deck as [__init__]
    leaves it, [source] fails as soon as it has a source to add. *)
Lemma source_on_new_deck_fails comment filename flavor h w sources :
  sources <> [] ->
  source (Some sources) (snd (__init__ comment filename flavor h w))
  = (Raise (AttributeError "data_block"),
     snd (__init__ comment filename flavor h w)).
Proof.
  intros Hne. destruct sources as [|src rest]; [congruence|]. reflexivity.
Qed.

(** C10: [source] with an empty list succeeds and changes nothing, on
    every deck; neither [data_block] nor [def_num] is looked at. In
    particular it does so on a deck as [__init__] leaves it, where both
    attributes are still missing. *)
Theorem source_of_nothing (st : state) (comment filename flavor : string)
    (h : store) (w : world) :
  source (Some []) st = (Ok tt, st) /\
  data_block (self (snd (__init__ comment filename flavor h w))) = None /\
  def_num (self (snd (__init__ comment filename flavor h w))) = None /\
  source (Some []) (snd (__init__ comment filename flavor h w))
  = (Ok tt, snd (__init__ comment filename flavor h w)).
Proof.
  split; [reflexivity|]. unfold __init__. cbn [snd self data_block def_num].
  repeat split.
Qed.

(** * Launching the engine *)

(** [runner] decides nothing: it launches, whatever the files are. *)
Lemma runner_always_launches {Remote Sys Renderer : Type}
    (filename command : string) (remote : Remote) (sys : Sys)
    (renderer : option Renderer) (w : world) :
  runner.needs_to_run
    (fst (runner.__init__ filename command remote sys renderer w)) = true /\
  spawned (snd (runner.__init__ filename command remote sys renderer w))
  = spawned w ++ [runner.cmd filename command].
Proof. split; reflexivity. Qed.

(** ** C9 *)

(** C9: for every file name and engine command, [runner] hands exactly
    one command to the shell: the invocation
    [<command> inp=<f>.inp out=<f>.out run=<f>_runtpe mctal=<f>_tallies.out]
    between [nohup] and [& disown], which detach it from the launching
    process; the notification shown quotes the same line. *)
Theorem launch_command_line {Remote Sys Renderer : Type}
    (filename command : string) (remote : Remote) (sys : Sys)
    (renderer : option Renderer) (w : world) :
  let invocation :=
    command +:+ " inp=" +:+ filename +:+ ".inp out=" +:+ filename
    +:+ ".out run=" +:+ filename +:+ "_runtpe mctal=" +:+ filename
    +:+ "_tallies.out" in
  let w' := snd (runner.__init__ filename command remote sys renderer w) in
  spawned w' = spawned w ++ ["nohup " +:+ invocation +:+ " & disown"] /\
  shown w' = shown w ++ [(command, "Will now run nohup " +:+ invocation
                                     +:+ " & disown.")] /\
  files w' = files w.
Proof.
  simpl. unfold runner.cmd. rewrite !app_assoc_s. repeat split.
Qed.

(** ** C2 *)

(** C2, on the code: with the deck file unchanged and the output of a
    completed run in place, two calls in a row both decide to run and both
    launch the engine. *)
Theorem unchanged_deck_is_launched_again :
  files finished !! "deck.inp" = Some (render (self fresh)) /\
  is_Some (files finished !! "deck.out") /\
  runner.needs_to_run
    (fst (runner.__init__ "deck" "mcnp6" tt tt (@None unit) finished))
  = true /\
  runner.needs_to_run
    (fst (runner.__init__ "deck" "mcnp6" tt tt (@None unit)
            (snd (runner.__init__ "deck" "mcnp6" tt tt (@None unit)
                    finished))))
  = true /\
  spawned (snd (runner.__init__ "deck" "mcnp6" tt tt (@None unit)
                  (snd (runner.__init__ "deck" "mcnp6" tt tt (@None unit)
                          finished))))
  = [runner.cmd "deck" "mcnp6"; runner.cmd "deck" "mcnp6"].
Proof.
  split; [vm_compute; reflexivity|].
  split; [vm_compute; eauto|].
  repeat split.
Qed.

(** ** C3 *)

(** C3, as stated, fails: the selector ["7"] is none of the supported
    ones, yet building a deck with it raises nothing, and [runner], given
    it as its command, launches a process. *)
Lemma unknown_selector_counterexample :
  ("7" ∉ ["v6"; "v5"; "x"; "6"; "5"]) /\
  fst (__init__ "test deck" "deck" "7" blank quiet) = Ok tt /\
  spawned (snd (runner.__init__ "deck" "7" tt tt (@None unit) quiet))
  = ["nohup 7 inp=deck.inp out=deck.out run=deck_runtpe "
     +:+ "mctal=deck_tallies.out & disown"].
Proof.
  split; [|split; reflexivity].
  apply (bool_decide_unpack _); vm_compute; exact I.
Qed.

(** C3 (amended): for every flavor other than ["6"], ["5"] and ["x"],
    [__init__] raises nothing, leaves the deck without a [command] and
    launches no process; and [runner] checks no selector: it launches
    whatever command it is given. *)
Theorem unknown_flavor_is_accepted {Remote Sys Renderer : Type}
    (comment filename flavor : string) (h : store) (w : world)
    (command : string) (remote : Remote) (sys : Sys)
    (renderer : option Renderer) :
  flavor <> "6" -> flavor <> "5" -> flavor <> "x" ->
  fst (__init__ comment filename flavor h w) = Ok tt /\
  mcnp_companion.command (self (snd (__init__ comment filename flavor h w)))
  = None /\
  spawned (env (snd (__init__ comment filename flavor h w))) = spawned w /\
  spawned (snd (runner.__init__ filename command remote sys renderer w))
  = spawned w ++ [runner.cmd filename command].
Proof.
  intros H6 H5 Hx. unfold __init__. simpl.
  apply String.eqb_neq in H6, H5, Hx. rewrite H6, H5, Hx.
  repeat split.
Qed.

Lemma unknown_flavor_is_accepted_witness :
  mcnp_companion.command
    (self (snd (__init__ "test deck" "deck" "v6" blank quiet))) = None.
Proof.
  apply (unknown_flavor_is_accepted (Renderer := unit)
           "test deck" "deck" "v6" blank quiet "mcnp6" tt tt None);
    discriminate.
Defined.

(** * Further properties of the deck and of the launch *)

Arguments percent : simpl never.

Lemma stamps_app step n pre post h :
  stamps step n (pre ++ post) h
  = stamps step (n + step * Z.of_nat (length pre)) post (stamps step n pre h).
Proof.
  revert n h. induction pre as [|x pre IH]; intros n h.
  - simpl. f_equal. lia.
  - change ((x :: pre) ++ post) with (x :: (pre ++ post)).
    change (length (x :: pre)) with (S (length pre)).
    simpl stamps. rewrite IH. f_equal. lia.
Qed.

Lemma stamps_last step n pre l post h :
  l ∉ post ->
  ent_num (stamps step n (pre ++ l :: post) h l)
  = Some (n + step * Z.of_nat (length pre)).
Proof.
  intros Hl. rewrite stamps_app. simpl stamps.
  rewrite stamps_other by assumption. apply set_num_eq.
Qed.

Lemma geo_lines_app h n pre post :
  geo_lines h n (pre ++ post)
  = geo_lines h n pre +:+ geo_lines h (n + 10 * Z.of_nat (length pre)) post.
Proof.
  revert n. induction pre as [|x pre IH]; intros n.
  - change (Z.of_nat (length (@nil loc))) with 0.
    rewrite Z.mul_0_r, Z.add_0_r. reflexivity.
  - change ((x :: pre) ++ post) with (x :: (pre ++ post)).
    change (length (x :: pre)) with (S (length pre)).
    simpl geo_lines. rewrite IH, !app_assoc_s.
    replace (n + 10 + 10 * Z.of_nat (length pre))
      with (n + 10 * Z.of_nat (S (length pre))) by lia.
    reflexivity.
Qed.

Lemma matl_lines_app h n pre post :
  matl_lines h n (pre ++ post)
  = matl_lines h n pre +:+ matl_lines h (n + 1 * Z.of_nat (length pre)) post.
Proof.
  revert n. induction pre as [|x pre IH]; intros n.
  - change (Z.of_nat (length (@nil loc))) with 0.
    rewrite Z.mul_0_r, Z.add_0_r. reflexivity.
  - change ((x :: pre) ++ post) with (x :: (pre ++ post)).
    change (length (x :: pre)) with (S (length pre)).
    simpl matl_lines. rewrite IH, !app_assoc_s.
    replace (n + 1 + 1 * Z.of_nat (length pre))
      with (n + 1 * Z.of_nat (S (length pre))) by lia.
    reflexivity.
Qed.

(** X1: for every deck, store, world and list of objects, [geo] appends to
    [geo_block] one entry [comment, line feed, number, four spaces,
    content, line feed] per object, in the order of the list and numbered
    10, 20, ...; it leaves [geo_num] at the next free number and changes
    no other attribute of the deck and nothing in the world. *)
Theorem geo_appends_entries (d : t) (h : store) (w : world)
    (geos : list loc) :
  let st' := snd (geo (Some geos) {| self := d; heap := h; env := w |}) in
  geo_block (self st') = geo_block d +:+ geo_lines h 10 geos /\
  geo_num (self st') = Some (10 + 10 * Z.of_nat (length geos)) /\
  (comment (self st'), filename (self st'), command (self st'),
   intro_block (self st'), cell_block (self st'), matl_block (self st'),
   matl_num (self st'), data_block (self st'), def_num (self st'))
  = (comment d, filename d, command d, intro_block d, cell_block d,
     matl_block d, matl_num d, data_block d, def_num d) /\
  env st' = w.
Proof.
  intros st'. subst st'. rewrite geo_ok. repeat split.
Qed.

(** X3: whatever the list handed to [geo], repetitions included, an
    object ends with the number of its last position in the list (ten
    times the position, counting from one), and an object that is not in
    the list is not touched. *)
Theorem geo_numbers_by_last_position (st : state) (pre post : list loc)
    (l l' : loc) :
  l ∉ post -> l' ∉ pre ++ l :: post ->
  ent_num (heap (snd (geo (Some (pre ++ l :: post)) st)) l)
  = Some (10 * (Z.of_nat (length pre) + 1)) /\
  heap (snd (geo (Some (pre ++ l :: post)) st)) l' = heap st l'.
Proof.
  intros Hl Hl'. destruct st as [d h w]. rewrite geo_ok. simpl. split.
  - rewrite stamps_last by assumption. f_equal. lia.
  - now apply stamps_other.
Qed.

Lemma geo_numbers_by_last_position_witness :
  ent_num (heap (snd (geo (Some [0%nat; 0%nat; 1%nat]) fresh)) 0%nat)
  = Some 20.
Proof.
  apply (geo_numbers_by_last_position fresh [0%nat] [1%nat] 0%nat 5%nat);
    decide_it.
Defined.

Lemma geo_entry_at h n pre l post :
  infix (ent_comment (h l) +:+ nl +:+ dec (n + 10 * Z.of_nat (length pre))
           +:+ "    " +:+ ent_string (h l) +:+ nl)
        (geo_lines h n (pre ++ l :: post)).
Proof.
  rewrite geo_lines_app. simpl geo_lines.
  exists (geo_lines h n pre),
         (geo_lines h (n + 10 * Z.of_nat (length pre) + 10) post).
  now rewrite !app_assoc_s.
Qed.

(** X5: when the objects handed to [geo] are distinct, the entry of each
    in [geo_block] carries the very number left on the object, so that the
    object's [num] can be used to refer to its entry. *)
Theorem geo_entry_carries_stamped_id (st : state) (geos : list loc) (l : loc) :
  NoDup geos -> l ∈ geos ->
  exists n,
    ent_num (heap (snd (geo (Some geos) st)) l) = Some n /\
    infix (ent_comment (heap st l) +:+ nl +:+ dec n +:+ "    "
             +:+ ent_string (heap st l) +:+ nl)
          (geo_block (self (snd (geo (Some geos) st)))).
Proof.
  intros Hnd Hl. apply list_elem_of_split in Hl as (pre & post & ->).
  apply NoDup_app in Hnd as (_ & _ & Hnd). apply NoDup_cons in Hnd as [Hl _].
  destruct st as [d h w]. rewrite geo_ok. simpl.
  exists (10 + 10 * Z.of_nat (length pre)). split.
  - now apply stamps_last.
  - apply infix_app_r, geo_entry_at.
Qed.

Lemma geo_entry_carries_stamped_id_witness :
  exists n,
    ent_num (heap (snd (geo (Some [1%nat; 0%nat])
                          {| self := self fresh; heap := sphere_and_lead;
                             env := quiet |})) 0%nat) = Some n /\
    infix ("outer sphere" +:+ nl +:+ dec n +:+ "    " +:+ "-1 SO 10" +:+ nl)
          (geo_block
             (self (snd (geo (Some [1%nat; 0%nat])
                           {| self := self fresh; heap := sphere_and_lead;
                              env := quiet |})))).
Proof.
  apply (geo_entry_carries_stamped_id
           {| self := self fresh; heap := sphere_and_lead; env := quiet |}
           [1%nat; 0%nat] 0%nat); decide_it.
Defined.

(** X2: for every deck, store, world and list of objects, [matl] appends
    to [matl_block] one entry [comment, line feed, m, number, space,
    content, line feed] per object, in the order of the list and numbered
    1, 2, ...; it leaves [matl_num] at the next free number and changes no
    other attribute of the deck and nothing in the world. *)
Theorem matl_appends_entries (d : t) (h : store) (w : world)
    (matls : list loc) :
  let st' := snd (matl (Some matls) {| self := d; heap := h; env := w |}) in
  matl_block (self st') = matl_block d +:+ matl_lines h 1 matls /\
  matl_num (self st') = Some (1 + 1 * Z.of_nat (length matls)) /\
  (comment (self st'), filename (self st'), command (self st'),
   intro_block (self st'), cell_block (self st'), geo_block (self st'),
   geo_num (self st'), data_block (self st'), def_num (self st'))
  = (comment d, filename d, command d, intro_block d, cell_block d,
     geo_block d, geo_num d, data_block d, def_num d) /\
  env st' = w.
Proof.
  intros st'. subst st'. rewrite matl_ok. repeat split.
Qed.

(** X4: whatever the list handed to [matl], repetitions included, an
    object ends with the number of its last position in the list, and an
    object that is not in the list is not touched. *)
Theorem matl_numbers_by_last_position (st : state) (pre post : list loc)
    (l l' : loc) :
  l ∉ post -> l' ∉ pre ++ l :: post ->
  ent_num (heap (snd (matl (Some (pre ++ l :: post)) st)) l)
  = Some (Z.of_nat (length pre) + 1) /\
  heap (snd (matl (Some (pre ++ l :: post)) st)) l' = heap st l'.
Proof.
  intros Hl Hl'. destruct st as [d h w]. rewrite matl_ok. simpl. split.
  - rewrite stamps_last by assumption. f_equal. lia.
  - now apply stamps_other.
Qed.

Lemma matl_numbers_by_last_position_witness :
  ent_num (heap (snd (matl (Some [0%nat; 0%nat; 1%nat]) fresh)) 0%nat)
  = Some 2.
Proof.
  apply (matl_numbers_by_last_position fresh [0%nat] [1%nat] 0%nat 5%nat);
    decide_it.
Defined.

Lemma matl_entry_at h n pre l post :
  infix (ent_comment (h l) +:+ nl +:+ "m"
           +:+ dec (n + 1 * Z.of_nat (length pre))
           +:+ " " +:+ ent_string (h l) +:+ nl)
        (matl_lines h n (pre ++ l :: post)).
Proof.
  rewrite matl_lines_app. simpl matl_lines.
  exists (matl_lines h n pre),
         (matl_lines h (n + 1 * Z.of_nat (length pre) + 1) post).
  now rewrite !app_assoc_s.
Qed.

(** X6: when the objects handed to [matl] are distinct, the entry of each
    in [matl_block] carries the very number left on the object. *)
Theorem matl_entry_carries_stamped_id (st : state) (matls : list loc)
    (l : loc) :
  NoDup matls -> l ∈ matls ->
  exists n,
    ent_num (heap (snd (matl (Some matls) st)) l) = Some n /\
    infix (ent_comment (heap st l) +:+ nl +:+ "m" +:+ dec n +:+ " "
             +:+ ent_string (heap st l) +:+ nl)
          (matl_block (self (snd (matl (Some matls) st)))).
Proof.
  intros Hnd Hl. apply list_elem_of_split in Hl as (pre & post & ->).
  apply NoDup_app in Hnd as (_ & _ & Hnd). apply NoDup_cons in Hnd as [Hl _].
  destruct st as [d h w]. rewrite matl_ok. simpl.
  exists (1 + 1 * Z.of_nat (length pre)). split.
  - now apply stamps_last.
  - apply infix_app_r, matl_entry_at.
Qed.

Lemma matl_entry_carries_stamped_id_witness :
  exists n,
    ent_num (heap (snd (matl (Some [0%nat; 1%nat])
                          {| self := self fresh; heap := sphere_and_lead;
                             env := quiet |})) 1%nat) = Some n /\
    infix ("lead" +:+ nl +:+ "m" +:+ dec n +:+ " " +:+ "82000 1" +:+ nl)
          (matl_block
             (self (snd (matl (Some [0%nat; 1%nat])
                           {| self := self fresh; heap := sphere_and_lead;
                              env := quiet |})))).
Proof.
  apply (matl_entry_carries_stamped_id
           {| self := self fresh; heap := sphere_and_lead; env := quiet |}
           [0%nat; 1%nat] 1%nat); decide_it.
Defined.

(** ** [geo] and [matl] side by side *)

Lemma stamps_ext step n ls h1 h2 l :
  h1 l = h2 l -> stamps step n ls h1 l = stamps step n ls h2 l.
Proof.
  revert n h1 h2. induction ls as [|x ls IH]; intros n h1 h2 H; [exact H|].
  simpl. apply IH. unfold set_num.
  destruct (Nat.eqb_spec l x) as [->|_]; [now rewrite H | exact H].
Qed.

Lemma geo_lines_stamps step k ls h n xs :
  geo_lines (stamps step k ls h) n xs = geo_lines h n xs.
Proof.
  revert k h. induction ls as [|x ls IH]; intros k h; [reflexivity|].
  simpl stamps. now rewrite IH, geo_lines_set_num.
Qed.

Lemma matl_lines_stamps step k ls h n xs :
  matl_lines (stamps step k ls h) n xs = matl_lines h n xs.
Proof.
  revert k h. induction ls as [|x ls IH]; intros k h; [reflexivity|].
  simpl stamps. now rewrite IH, matl_lines_set_num.
Qed.

(** X8: [geo] and [matl] can be called in either order: the deck and the
    world end the same, and so does every object that is not handed to
    both (one handed to both keeps the number of the later call). *)
Theorem geo_matl_commute (st : state) (geos matls : list loc) (l : loc) :
  l ∉ geos \/ l ∉ matls ->
  let a := snd (matl (Some matls) (snd (geo (Some geos) st))) in
  let b := snd (geo (Some geos) (snd (matl (Some matls) st))) in
  self a = self b /\ env a = env b /\ heap a l = heap b l.
Proof.
  intros Hl a b. subst a b. destruct st as [d h w].
  rewrite geo_ok, matl_ok. cbn [snd]. rewrite geo_ok, matl_ok. cbn [snd].
  cbn [self heap env]. rewrite geo_lines_stamps, matl_lines_stamps.
  split; [now destruct d|]. split; [reflexivity|].
  destruct Hl as [Hl|Hl].
  - rewrite (stamps_other 10 10 geos (stamps 1 1 matls h) l Hl).
    apply stamps_ext. now apply stamps_other.
  - rewrite (stamps_other 1 1 matls (stamps 10 10 geos h) l Hl).
    apply stamps_ext. symmetry. now apply stamps_other.
Qed.

Lemma geo_matl_commute_witness :
  heap (snd (matl (Some [1%nat]) (snd (geo (Some [0%nat]) fresh)))) 0%nat
  = heap (snd (geo (Some [0%nat]) (snd (matl (Some [1%nat]) fresh)))) 0%nat.
Proof.
  apply (geo_matl_commute fresh [0%nat] [1%nat] 0%nat).
  right. decide_it.
Defined.

Lemma percent_go_other c rest arg acc :
  Ascii.eqb c "%" = false ->
  percent_go (String c rest) arg acc
  = percent_go rest arg (acc +:+ String c EmptyString).
Proof.
  destruct c as [[] [] [] [] [] [] [] []]; intros H;
    try reflexivity; discriminate H.
Qed.

Lemma percent_go_literal pre : forall rest arg acc,
  no_percent pre = true ->
  percent_go (pre +:+ rest) arg acc = percent_go rest arg (acc +:+ pre).
Proof.
  induction pre as [|c pre IH]; intros rest arg acc H.
  - now rewrite app_nil_r_s.
  - simpl in H. apply andb_true_iff in H as [Hc Hp].
    apply negb_true_iff in Hc.
    rewrite app_cons_s, percent_go_other by assumption.
    rewrite IH by assumption. now rewrite app_assoc_s.
Qed.

Lemma percent_no_placeholder fmt n :
  no_percent fmt = true ->
  percent fmt n
  = Raise (TypeError "not all arguments converted during string formatting").
Proof.
  intros H. unfold percent.
  rewrite <- (app_nil_r_s fmt), percent_go_literal by assumption.
  reflexivity.
Qed.

Lemma percent_one_placeholder pre post n :
  no_percent pre = true -> no_percent post = true ->
  percent (pre +:+ "%d" +:+ post) n = Ok (pre +:+ dec n +:+ post).
Proof.
  intros Hpre Hpost. unfold percent.
  rewrite percent_go_literal by assumption.
  change ("%d" +:+ post) with (String "%" (String "d" post)).
  change (percent_go (String "%" (String "d" post)) (Some n)
            (EmptyString +:+ pre))
    with (percent_go post None ((EmptyString +:+ pre) +:+ dec n)).
  rewrite <- (app_nil_r_s post) at 1.
  rewrite percent_go_literal by assumption.
  change (percent_go EmptyString None
            (((EmptyString +:+ pre) +:+ dec n) +:+ post))
    with (Ok (((EmptyString +:+ pre) +:+ dec n) +:+ post)).
  now rewrite !app_assoc_s.
Qed.

Lemma dist_for_ok x d h w b n :
  data_block d = Some b -> def_num d = Some n ->
  dist_for x {| self := d; heap := h; env := w |} =
  (Ok tt,
   {| self := set_def_num (n + 1)
                (set_data_block (b +:+ dist_lines n [x]) d);
      heap := h; env := w |}).
Proof.
  intros Hb Hn. destruct d; simpl in *; subst. unfold dist_for. run_m.
  unfold set_def_num, set_data_block; simpl.
  rewrite !app_assoc_s, app_nil_r_s. reflexivity.
Qed.

Lemma dist_loop ds : forall d h w b n,
  data_block d = Some b -> def_num d = Some n ->
  for_each ds dist_for {| self := d; heap := h; env := w |} =
  (Ok tt,
   {| self := set_def_num (n + Z.of_nat (length ds))
                (set_data_block (b +:+ dist_lines n ds) d);
      heap := h; env := w |}).
Proof.
  induction ds as [|x ds IH]; intros d h w b n Hb Hn.
  - destruct d; simpl in *; subst. unfold set_def_num, set_data_block; simpl.
    rewrite app_nil_r_s, Z.add_0_r. reflexivity.
  - simpl for_each. unfold mbind, M_bind at 1.
    rewrite (dist_for_ok x d h w b n Hb Hn).
    rewrite (IH _ _ _ (b +:+ dist_lines n [x]) (n + 1)) by reflexivity.
    destruct d; simpl in *. unfold set_def_num, set_data_block; simpl.
    rewrite app_nil_r_s, !app_assoc_s.
    replace (n + 1 + Z.of_nat (length ds))
      with (n + Z.of_nat (S (length ds))) by lia.
    reflexivity.
Qed.

(** What one turn of the loop of [source] does, by cases. *)
Lemma source_for_cases src d h w :
  source_for src {| self := d; heap := h; env := w |} =
  match data_block d with
  | None =>
      (Raise (AttributeError "data_block"),
       {| self := d; heap := h; env := w |})
  | Some b =>
      match def_num d with
      | None =>
          (Raise (AttributeError "def_num"),
           {| self := set_data_block (b +:+ "sdef    ") d;
              heap := h; env := w |})
      | Some n =>
          match percent (src_string src) n with
          | Raise e =>
              (Raise e,
               {| self := set_data_block (b +:+ "sdef    ") d;
                  heap := h; env := w |})
          | Ok s =>
              (Ok tt,
               {| self := set_def_num (n + Z.of_nat (length (src_dists src)))
                            (set_data_block
                               (b +:+ "sdef    " +:+ s +:+ nl
                                  +:+ dist_lines n (src_dists src)) d);
                  heap := h; env := w |})
          end
      end
  end.
Proof.
  destruct d; simpl. destruct data_block0 as [b|]; [|reflexivity].
  destruct def_num0 as [n|]; [|reflexivity].
  unfold source_for. run_m.
  destruct (percent (src_string src) n) as [s|e]; [|reflexivity].
  rewrite (dist_loop _ _ h w ((b +:+ "sdef    ") +:+ s +:+ nl) n)
    by reflexivity.
  unfold set_def_num, set_data_block; simpl.
  now rewrite !app_assoc_s.
Qed.

Lemma with_data_id d : with_data (data_block d) (def_num d) d = d.
Proof. now destruct d. Qed.

(** The whole effect of the loop of [source], whatever its outcome: only
    [data_block] and [def_num] can change, the first by growing at its
    end, the second by counting up. *)
Lemma source_loop_effect ss : forall d h w,
  exists o b' n',
    for_each ss source_for {| self := d; heap := h; env := w |}
    = (o, {| self := with_data b' n' d; heap := h; env := w |}) /\
    (forall b, data_block d = Some b -> exists sfx, b' = Some (b +:+ sfx)) /\
    (data_block d = None -> b' = None /\ n' = def_num d) /\
    (forall n, def_num d = Some n ->
               exists k : nat, n' = Some (n + Z.of_nat k)) /\
    (def_num d = None -> n' = None) /\
    (o = Ok tt -> forall n, def_num d = Some n ->
       n' = Some (n + Z.of_nat (total_dists ss))).
Proof.
  induction ss as [|src ss IH]; intros d h w.
  - exists (Ok tt), (data_block d), (def_num d). rewrite with_data_id.
    refine (conj eq_refl (conj _ (conj _ (conj _ (conj _ _))))).
    + intros b ->. exists EmptyString. now rewrite app_nil_r_s.
    + intros ->. now split.
    + intros n ->. exists O. now rewrite Z.add_0_r.
    + intros ->. reflexivity.
    + intros _ n ->. simpl. now rewrite Z.add_0_r.
  - simpl for_each. unfold mbind, M_bind at 1. rewrite source_for_cases.
    destruct (data_block d) as [b|] eqn:Hb.
    2:{ exists (Raise (AttributeError "data_block")), None, (def_num d).
        rewrite <- Hb, with_data_id.
        refine (conj eq_refl (conj _ (conj _ (conj _ (conj _ _)))));
          rewrite ?Hb; try congruence.
        - now split.
        - intros n ->. exists O. now rewrite Z.add_0_r. }
    destruct (def_num d) as [n|] eqn:Hn.
    2:{ exists (Raise (AttributeError "def_num")),
               (Some (b +:+ "sdef    ")), None.
        refine (conj _ (conj _ (conj _ (conj _ (conj _ _)))));
          try congruence.
        - destruct d; simpl in *; subst; reflexivity.
        - intros ? [= <-]. eauto. }
    destruct (percent (src_string src) n) as [s|e].
    2:{ exists (Raise e), (Some (b +:+ "sdef    ")), (Some n).
        refine (conj _ (conj _ (conj _ (conj _ (conj _ _)))));
          try congruence.
        - destruct d; simpl in *; subst; reflexivity.
        - intros ? [= <-]. eauto.
        - intros ? [= <-]. exists O. now rewrite Z.add_0_r. }
    match goal with |- context [for_each ss source_for
                                  {| self := ?d1; heap := _; env := _ |}] =>
      destruct (IH d1 h w)
        as (o & b' & n' & Hrun & Hgrow & _ & Hcount & _ & Hok)
    end.
    exists o, b', n'. rewrite Hrun.
    refine (conj _ (conj _ (conj _ (conj _ (conj _ _)))));
      try congruence.
    + now destruct d.
    + intros ? [= <-]. destruct (Hgrow _ eq_refl) as [sfx ->].
      eexists. now rewrite !app_assoc_s.
    + intros ? [= <-]. destruct (Hcount _ eq_refl) as [k ->].
      exists (length (src_dists src) + k)%nat. f_equal. lia.
    + intros Ho ? [= <-]. rewrite (Hok Ho _ eq_refl). simpl total_dists.
      f_equal. lia.
Qed.

Lemma source_effect ss st :
  exists b' n',
    snd (source (Some ss) st)
    = {| self := with_data b' n' (self st); heap := heap st; env := env st |}
    /\
    (forall b, data_block (self st) = Some b ->
               exists sfx, b' = Some (b +:+ sfx)) /\
    (data_block (self st) = None -> b' = None /\ n' = def_num (self st)) /\
    (forall n, def_num (self st) = Some n ->
               exists k : nat, n' = Some (n + Z.of_nat k)) /\
    (def_num (self st) = None -> n' = None) /\
    (fst (source (Some ss) st) = Ok tt ->
     forall n, def_num (self st) = Some n ->
               n' = Some (n + Z.of_nat (total_dists ss))).
Proof.
  destruct st as [d h w].
  destruct (source_loop_effect ss d h w) as (o & b' & n' & Hrun & H).
  exists b', n'.
  change (source (Some ss) {| self := d; heap := h; env := w |})
    with (for_each ss source_for {| self := d; heap := h; env := w |}).
  rewrite Hrun. split; [reflexivity|]. exact H.
Qed.

(** X10: on a deck that has a [data_block] and a [def_num], a source
    whose content holds the single placeholder [%d] is written as
    [sdef], four spaces, the content with the counter in place of the
    placeholder, then one line [sp<k>] per distribution, numbered on from
    the counter; the counter advances by the number of distributions and
    nothing else changes. *)
Theorem source_writes_definition (st : state) (b pre post : string) (n : Z)
    (ds : list dist) :
  data_block (self st) = Some b -> def_num (self st) = Some n ->
  no_percent pre = true -> no_percent post = true ->
  source (Some [ {| src_string := pre +:+ "%d" +:+ post; src_dists := ds |} ])
    st
  = (Ok tt,
     {| self := with_data
                  (Some (b +:+ "sdef    " +:+ pre +:+ dec n +:+ post +:+ nl
                           +:+ dist_lines n ds))
                  (Some (n + Z.of_nat (length ds))) (self st);
        heap := heap st; env := env st |}).
Proof.
  intros Hb Hn Hpre Hpost. destruct st as [d h w]. simpl in Hb, Hn.
  cbv beta iota delta [source iter for_each mbind M_bind mret M_ret].
  rewrite source_for_cases, Hb, Hn. cbn [src_string src_dists].
  rewrite percent_one_placeholder by assumption.
  destruct d; simpl in *. unfold with_data, set_def_num, set_data_block; simpl.
  now rewrite !app_assoc_s.
Qed.

Lemma source_writes_definition_witness :
  source (Some [ {| src_string := "par=1 erg=d" +:+ "%d" +:+ EmptyString;
                    src_dists := [ {| dist_string := "0 1" |} ] |} ]) seeded
  = (Ok tt,
     {| self := with_data
                  (Some (EmptyString +:+ "sdef    " +:+ "par=1 erg=d"
                           +:+ dec 1 +:+ EmptyString +:+ nl
                           +:+ dist_lines 1 [ {| dist_string := "0 1" |} ]))
                  (Some (1 + Z.of_nat 1)) (self seeded);
        heap := heap seeded; env := env seeded |}).
Proof.
  apply (source_writes_definition seeded EmptyString "par=1 erg=d"
           EmptyString 1 [ {| dist_string := "0 1" |} ]); reflexivity.
Defined.

(** X11: a source whose content has no percent sign cannot be added: the
    formatting raises [TypeError] (an argument is left over), after
    ["sdef    "] has been appended to the data block; the counter and the
    rest of the state stay as they were, later sources are not reached. *)
Theorem source_without_placeholder_raises (st : state) (b : string) (n : Z)
    (src : source_t) (rest : list source_t) :
  data_block (self st) = Some b -> def_num (self st) = Some n ->
  no_percent (src_string src) = true ->
  source (Some (src :: rest)) st
  = (Raise (TypeError "not all arguments converted during string formatting"),
     {| self := with_data (Some (b +:+ "sdef    ")) (Some n) (self st);
        heap := heap st; env := env st |}).
Proof.
  intros Hb Hn Hfmt. destruct st as [d h w]. simpl in Hb, Hn.
  cbv beta iota delta [source iter for_each mbind M_bind mret M_ret].
  rewrite source_for_cases, Hb, Hn, percent_no_placeholder by assumption.
  destruct d; simpl in *; subst. reflexivity.
Qed.

Lemma source_without_placeholder_raises_witness :
  source (Some [ {| src_string := "par=1"; src_dists := [] |} ]) seeded
  = (Raise (TypeError "not all arguments converted during string formatting"),
     {| self := with_data (Some (EmptyString +:+ "sdef    ")) (Some 1)
                  (self seeded);
        heap := heap seeded; env := env seeded |}).
Proof.
  apply (source_without_placeholder_raises seeded EmptyString 1
           {| src_string := "par=1"; src_dists := [] |} []); reflexivity.
Defined.

Lemma render_with_data b n d : render (with_data b n d) = render d.
Proof. reflexivity. Qed.

(** X12: whether it succeeds or raises, [source] changes nothing but the
    attributes [data_block] and [def_num]: the store, the world and the
    other attributes are as before, and so is the text [run] writes. *)
Theorem source_touches_only_data (st : state) (ss : list source_t) :
  (exists b' n',
     snd (source (Some ss) st)
     = {| self := with_data b' n' (self st);
          heap := heap st; env := env st |}) /\
  render (self (snd (source (Some ss) st))) = render (self st).
Proof.
  destruct (source_effect ss st) as (b' & n' & Hst & _).
  split; [eauto|]. rewrite Hst. apply render_with_data.
Qed.

(** X13: whether it succeeds or raises, [source] only adds at the end of
    the data block and only counts the distribution counter up. *)
Theorem source_data_append_only (st : state) (ss : list source_t)
    (b : string) (n : Z) :
  data_block (self st) = Some b -> def_num (self st) = Some n ->
  exists (sfx : string) (k : nat),
    data_block (self (snd (source (Some ss) st))) = Some (b +:+ sfx) /\
    def_num (self (snd (source (Some ss) st))) = Some (n + Z.of_nat k).
Proof.
  intros Hb Hn.
  destruct (source_effect ss st) as (b' & n' & -> & Hgrow & _ & Hcount & _).
  destruct (Hgrow _ Hb) as [sfx ->]. destruct (Hcount _ Hn) as [k ->].
  now exists sfx, k.
Qed.

Lemma source_data_append_only_witness :
  exists (sfx : string) (k : nat),
    data_block
      (self (snd (source (Some [ {| src_string := "par=1"; src_dists := [] |} ])
                    seeded)))
    = Some (EmptyString +:+ sfx) /\
    def_num
      (self (snd (source (Some [ {| src_string := "par=1"; src_dists := [] |} ])
                    seeded)))
    = Some (1 + Z.of_nat k).
Proof.
  apply (source_data_append_only seeded
           [ {| src_string := "par=1"; src_dists := [] |} ] EmptyString 1);
    reflexivity.
Defined.

(** X14: after a call of [source] that did not raise, the distribution
    counter has advanced by the number of distributions of all the sources
    of the call; it is not reset between sources or between calls. *)
Theorem source_counter_on_success (st : state) (ss : list source_t) (n : Z) :
  fst (source (Some ss) st) = Ok tt -> def_num (self st) = Some n ->
  def_num (self (snd (source (Some ss) st)))
  = Some (n + Z.of_nat (total_dists ss)).
Proof.
  intros Hok Hn.
  destruct (source_effect ss st) as (b' & n' & -> & _ & _ & _ & _ & Hsum).
  exact (Hsum Hok _ Hn).
Qed.

Lemma source_counter_on_success_witness :
  def_num
    (self (snd (source
                  (Some [ {| src_string := "erg=d%d";
                             src_dists := [ {| dist_string := "0 1" |};
                                            {| dist_string := "0 2" |} ] |};
                          {| src_string := "erg=d%d";
                             src_dists := [ {| dist_string := "0 3" |} ] |} ])
                  seeded)))
  = Some 4.
Proof.
  apply (source_counter_on_success seeded
           [ {| src_string := "erg=d%d";
                src_dists := [ {| dist_string := "0 1" |};
                               {| dist_string := "0 2" |} ] |};
             {| src_string := "erg=d%d";
                src_dists := [ {| dist_string := "0 3" |} ] |} ] 1);
    reflexivity.
Defined.

(** ** Default arguments *)

Lemma matl_None d h w :
  matl None {| self := d; heap := h; env := w |} =
  (Raise (TypeError "'NoneType' object is not iterable"),
   {| self := set_matl_num 1 d; heap := h; env := w |}).
Proof. reflexivity. Qed.

(** X9: called without their argument, [geo], [matl] and [source] raise
    [TypeError] ([None] is not iterable); by then [geo] has reset its
    counter to 10 and [matl] to 1, the blocks and the rest are unchanged. *)
Theorem default_argument_raises (st : state) :
  geo None st
  = (Raise (TypeError "'NoneType' object is not iterable"),
     {| self := set_geo_num 10 (self st); heap := heap st; env := env st |})
  /\
  matl None st
  = (Raise (TypeError "'NoneType' object is not iterable"),
     {| self := set_matl_num 1 (self st); heap := heap st; env := env st |})
  /\
  source None st
  = (Raise (TypeError "'NoneType' object is not iterable"), st).
Proof. destruct st as [d h w]. repeat split. Qed.

(** ** What [run] leaves alone *)

(** X15: [run] writes the deck file and nothing else: every other file
    is as before, nothing is printed, shown or launched, and the deck and
    the store are unchanged. *)
Theorem run_touches_one_file {Remote Sys : Type} (remote : Remote) (sys : Sys)
    (st : state) (path : string) :
  path <> filename (self st) +:+ ".inp" ->
  files (env (snd (run remote sys st))) !! path = files (env st) !! path /\
  stdout (env (snd (run remote sys st))) = stdout (env st) /\
  spawned (env (snd (run remote sys st))) = spawned (env st) /\
  shown (env (snd (run remote sys st))) = shown (env st) /\
  self (snd (run remote sys st)) = self st /\
  heap (snd (run remote sys st)) = heap st.
Proof.
  intros Hp. destruct st as [d h w]. cbn [self] in Hp. rewrite run_writes.
  cbn [snd self heap env set_files files stdout spawned shown].
  rewrite lookup_insert_ne by (intros E; now apply Hp). repeat split.
Qed.

Lemma run_touches_one_file_witness :
  files (env (snd (run tt tt fresh))) !! "deck.out"
  = files (env fresh) !! "deck.out".
Proof.
  apply (run_touches_one_file tt tt fresh "deck.out"). discriminate.
Defined.

(** ** Writing, then launching *)

Lemma cmd_names_input filename command :
  infix ("inp=" +:+ filename +:+ ".inp ") (runner.cmd filename command).
Proof.
  unfold runner.cmd.
  exists ("nohup " +:+ command +:+ " "),
         ("out=" +:+ filename +:+ ".out " +:+ "run=" +:+ filename
            +:+ "_runtpe " +:+ "mctal=" +:+ filename
            +:+ "_tallies.out & disown").
  now rewrite !app_assoc_s.
Qed.

(** X16: after [run], a runner built for the deck's file name launches a
    command whose [inp=] argument is the path of the file [run] has just
    written, which holds the rendered deck; the launch leaves the file as
    it is. *)
Theorem launch_reads_written_deck {Remote Sys Renderer : Type}
    (remote : Remote) (sys : Sys) (renderer : option Renderer)
    (st : state) (command : string) :
  let name := filename (self st) in
  let w1 := env (snd (run remote sys st)) in
  let w2 := snd (runner.__init__ name command remote sys renderer w1) in
  files w2 !! (name +:+ ".inp") = Some (render (self st)) /\
  spawned w2 = spawned (env st) ++ [runner.cmd name command] /\
  infix ("inp=" +:+ name +:+ ".inp ") (runner.cmd name command).
Proof.
  destruct st as [d h w]. cbn [self]. rewrite run_writes.
  cbn [snd env runner.__init__ files spawned set_files].
  rewrite lookup_insert_eq. repeat split. apply cmd_names_input.
Qed.

(** ** A deck built through its methods *)

Lemma perform_keeps (c : call) (st : state) :
  data_block (self st) = None ->
  fixed_part (self (snd (perform c st))) = fixed_part (self st) /\
  console (env (snd (perform c st))) = console (env st).
Proof.
  intros Hb. destruct st as [d h w]. cbn [self env] in *.
  destruct c as [[geos|]| |[matls|]|[ss|]|]; cbn [perform].
  - rewrite geo_ok. now destruct d.
  - rewrite geo_None. now destruct d.
  - now split.
  - rewrite matl_ok. now destruct d.
  - rewrite matl_None. now destruct d.
  - destruct (source_effect ss {| self := d; heap := h; env := w |})
      as (b' & n' & -> & _ & Hnone & _).
    cbn [self] in Hnone. destruct (Hnone Hb) as [-> ->].
    rewrite <- Hb, with_data_id. now split.
  - now split.
  - rewrite run_writes. now split.
Qed.

Lemma session_keeps (cs : list call) : forall st,
  data_block (self st) = None ->
  fixed_part (self (session cs st)) = fixed_part (self st) /\
  console (env (session cs st)) = console (env st).
Proof.
  induction cs as [|c cs IH]; intros st Hb; [now split|].
  destruct (perform_keeps c st Hb) as [Hd Hw].
  assert (Hb' : data_block (self (snd (perform c st))) = None).
  { unfold fixed_part in Hd. injection Hd as _ _ _ _ _ Hdb _. congruence. }
  destruct (IH _ Hb') as [Hd' Hw']. simpl session. split; congruence.
Qed.

(** X17: on a deck built by [__init__] and then taken through any series
    of calls of [geo], [cell], [matl], [source] and [run], failed calls
    included, the title, the header, the engine command and the empty
    cell block are as [__init__] left them, nothing was printed or
    launched since, [data_block] and [def_num] are still missing, and
    so [source] with a non-empty list raises [AttributeError]. *)
Theorem methods_never_enable_source (comment filename flavor : string)
    (h : store) (w : world) (cs : list call) (sources : list source_t) :
  sources <> [] ->
  let st0 := snd (__init__ comment filename flavor h w) in
  let st := session cs st0 in
  fixed_part (self st) = fixed_part (self st0) /\
  cell_block (self st) = EmptyString /\
  console (env st) = console (env st0) /\
  spawned (env st) = spawned w /\
  source (Some sources) st = (Raise (AttributeError "data_block"), st).
Proof.
  intros Hne st0 st.
  destruct (session_keeps cs st0 eq_refl) as [Hd Hw]. fold st in Hd, Hw.
  split; [exact Hd|]. split; [|split; [exact Hw|split]].
  - unfold fixed_part in Hd. injection Hd as _ _ _ _ Hc _ _. now rewrite Hc.
  - unfold console in Hw. injection Hw as _ _ _ Hs. now rewrite Hs.
  - assert (Hb : data_block (self st) = None).
    { unfold fixed_part in Hd. injection Hd as _ _ _ _ _ Hdb _.
      now rewrite Hdb. }
    destruct sources as [|src rest]; [congruence|].
    destruct st as [d h' w']. cbn [self] in Hb.
    cbv beta iota delta [source iter for_each mbind M_bind mret M_ret].
    rewrite source_for_cases, Hb. reflexivity.
Qed.

Lemma methods_never_enable_source_witness :
  source (Some [ {| src_string := "erg=d%d"; src_dists := [] |} ])
    (session [Geo (Some [0%nat]); Source None; Matl (Some [1%nat]); Run; Cell]
       (snd (__init__ "test deck" "deck" "6" blank quiet)))
  = (Raise (AttributeError "data_block"),
     session [Geo (Some [0%nat]); Source None; Matl (Some [1%nat]); Run; Cell]
       (snd (__init__ "test deck" "deck" "6" blank quiet))).
Proof.
  apply (methods_never_enable_source "test deck" "deck" "6" blank quiet
           [Geo (Some [0%nat]); Source None; Matl (Some [1%nat]); Run; Cell]
           [ {| src_string := "erg=d%d"; src_dists := [] |} ]).
  discriminate.
Defined.

(** ** The header in the deck file *)

Lemma sumlen_app a b : sumlen (a ++ b) = (sumlen a + sumlen b)%nat.
Proof. induction a as [|x a IH]; simpl; [reflexivity|]. rewrite IH. lia. Qed.

Lemma sumlen_removelast l : (sumlen (removelast l) <= sumlen l)%nat.
Proof.
  induction l as [|x l IH]; [simpl; lia|].
  destruct l as [|y l]; [simpl; lia|].
  change (removelast (x :: y :: l)) with (x :: removelast (y :: l)).
  simpl sumlen in *. lia.
Qed.

Lemma length_join_empty l :
  String.length (join EmptyString l) = sumlen l.
Proof.
  unfold join. induction l as [|x l IH]; [reflexivity|].
  destruct l as [|y l]; [simpl; lia|].
  change (String.concat EmptyString (x :: y :: l))
    with (x +:+ EmptyString +:+ String.concat EmptyString (y :: l)).
  rewrite !length_app_s, IH. simpl. lia.
Qed.

Lemma length_substring_0 m s : (String.length (substring 0 m s) <= m)%nat.
Proof.
  revert s. induction m as [|m IH]; intros [|c s]; simpl; try lia.
  specialize (IH s). lia.
Qed.

Lemma take_fitting_sum w n chunks :
  (n <= w)%nat ->
  ((take_fitting w n chunks).1.2 <= w)%nat /\
  (sumlen (take_fitting w n chunks).1.1 + n
   = (take_fitting w n chunks).1.2)%nat.
Proof.
  revert n. induction chunks as [|c cs IH]; intros n Hn; [simpl; lia|].
  simpl take_fitting.
  destruct (Nat.leb_spec (n + String.length c) w) as [Hfit|_]; [|simpl; lia].
  specialize (IH (n + String.length c)%nat Hfit).
  destruct (take_fitting w (n + String.length c) cs) as [[taken k] rest].
  simpl in *. lia.
Qed.

(** A line never holds more than the room it is given. *)
Lemma wrap_line_fits w have chunks :
  (1 <= w)%nat -> (sumlen (textwrap.wrap_line w have chunks).1 <= w)%nat.
Proof.
  intros Hw. unfold textwrap.wrap_line.
  set (chunks1 := match chunks with
                  | c :: cs =>
                      if have && textwrap.is_blank c then cs else chunks
                  | [] => []
                  end).
  pose proof (take_fitting_sum w 0 chunks1 ltac:(lia)) as [Hle Hsum].
  destruct (take_fitting w 0 chunks1) as [[cur_line cur_len] chunks2].
  simpl in Hle, Hsum.
  assert (Hbody : forall cur_line2,
    (sumlen cur_line2 <= w)%nat ->
    (sumlen match last cur_line2 with
            | Some c => if textwrap.is_blank c then removelast cur_line2
                        else cur_line2
            | None => cur_line2
            end <= w)%nat).
  { intros l Hl. pose proof (sumlen_removelast l).
    destruct (last l) as [c|]; [destruct (textwrap.is_blank c)|]; lia. }
  destruct chunks2 as [|x xs]; [apply Hbody; lia|].
  destruct (Nat.ltb_spec w (String.length x)); [|apply Hbody; lia].
  unfold textwrap._handle_long_word.
  destruct (Nat.ltb_spec w 1); [lia|]. apply Hbody.
  rewrite sumlen_app. simpl sumlen.
  pose proof (length_substring_0 (w - cur_len) x). lia.
Qed.

Lemma wrap_lines_fit tw (P : string -> Prop) :
  (String.length (textwrap.initial_indent tw) < textwrap.width tw)%nat ->
  (String.length (textwrap.subsequent_indent tw) < textwrap.width tw)%nat ->
  (forall body,
     (String.length (textwrap.initial_indent tw +:+ body)
        <= textwrap.width tw)%nat ->
     P (textwrap.initial_indent tw +:+ body)) ->
  (forall body,
     (String.length (textwrap.subsequent_indent tw +:+ body)
        <= textwrap.width tw)%nat ->
     P (textwrap.subsequent_indent tw +:+ body)) ->
  forall fuel chunks lines,
    Forall P lines -> Forall P (textwrap._wrap_chunks_go fuel tw chunks lines).
Proof.
  intros Hi Hs Pi Ps. induction fuel as [|fuel IH]; intros chunks lines Hl.
  - exact Hl.
  - destruct chunks as [|c cs]; [exact Hl|]. simpl textwrap._wrap_chunks_go.
    set (indent := match lines with
                   | [] => textwrap.initial_indent tw
                   | _ :: _ => textwrap.subsequent_indent tw
                   end).
    assert (Hw : (1 <= textwrap.width tw - String.length indent)%nat)
      by (subst indent; destruct lines; lia).
    pose proof (wrap_line_fits (textwrap.width tw - String.length indent)
                  (negb (bool_decide (lines = []))) (c :: cs) Hw) as Hfit.
    destruct (textwrap.wrap_line _ _ (c :: cs)) as [cur_line rest].
    simpl in Hfit. apply IH.
    destruct cur_line as [|x xs]; [exact Hl|].
    apply Forall_app. split; [exact Hl|]. apply Forall_singleton.
    assert (Hlen : (String.length (indent +:+ join EmptyString (x :: xs))
                    <= textwrap.width tw)%nat).
    { rewrite length_app_s, length_join_empty. lia. }
    subst indent. destruct lines; [now apply Pi | now apply Ps].
Qed.

(** X18: for every header text, each line the deck writer's wrapper
    produces starts with the comment marker ["c "] and is at most 80
    bytes long. *)
Theorem header_lines_are_comments (text : string) :
  Forall (fun line => String.prefix "c " line = true
                      /\ (String.length line <= 80)%nat)
         (textwrap.wrap intro text).
Proof.
  unfold textwrap.wrap, textwrap._wrap_chunks.
  apply (wrap_lines_fit intro
           (fun line => String.prefix "c " line = true
                        /\ (String.length line <= 80)%nat)).
  - simpl. lia.
  - simpl. lia.
  - intros body Hlen. split; [apply (prefix_app "c " body)|exact Hlen].
  - intros body Hlen. split; [apply (prefix_app "c " body)|exact Hlen].
  - constructor.
Qed.

(** ** The header comment after [__init__] *)

Lemma rev_app_rev_app w : forall a b,
  String.rev_app (String.rev_app w a) b = String.rev_app a (w +:+ b).
Proof.
  induction w as [|c w IH]; intros a b; [reflexivity|].
  simpl String.rev_app. rewrite IH. reflexivity.
Qed.

Lemma rev_rev w : String.rev (String.rev w) = w.
Proof.
  unfold String.rev. rewrite rev_app_rev_app. simpl. apply app_nil_r_s.
Qed.

Lemma forallb_rev_app p x : forall y,
  forallb_s p (String.rev_app x y) = forallb_s p x && forallb_s p y.
Proof.
  induction x as [|c x IH]; intros y; [reflexivity|].
  simpl. rewrite IH. simpl.
  destruct (p c), (forallb_s p x), (forallb_s p y); reflexivity.
Qed.

Lemma rev_app_nonempty x : forall y,
  x <> EmptyString \/ y <> EmptyString -> String.rev_app x y <> EmptyString.
Proof.
  induction x as [|c x IH]; intros y H; simpl.
  - destruct H; congruence.
  - apply IH. right. discriminate.
Qed.

Lemma token_rev x : token x -> token (String.rev x).
Proof.
  intros [Hne Hall]. split.
  - apply rev_app_nonempty. now left.
  - unfold String.rev. rewrite forallb_rev_app, Hall. reflexivity.
Qed.

Lemma words_go_tokens s : forall cur,
  (forall x, cur = Some x -> token x) -> Forall token (String.words_go cur s).
Proof.
  induction s as [|a s IH]; intros cur Hcur; simpl.
  - destruct cur as [x|]; simpl; [|constructor].
    apply Forall_singleton, token_rev. now apply Hcur.
  - destruct (Ascii.is_space a) eqn:Ha.
    + apply Forall_app. split; [|apply IH; discriminate].
      destruct cur as [x|]; simpl; [|constructor].
      apply Forall_singleton, token_rev. now apply Hcur.
    + apply IH. intros x [= <-]. destruct cur as [y|]; simpl.
      * destruct (Hcur y eq_refl) as [_ Hy]. split; [discriminate|].
        cbn [forallb_s]. unfold isspace at 1. now rewrite Ha, Hy.
      * split; [discriminate|]. cbn [forallb_s]. unfold isspace.
        now rewrite Ha.
Qed.

Lemma words_go_feed w : forall rest cur,
  forallb_s (fun c => negb (isspace c)) w = true ->
  String.words_go cur (w +:+ rest)
  = String.words_go
      match w with
      | EmptyString => cur
      | String _ _ => Some (String.rev_app w (from_option id EmptyString cur))
      end rest.
Proof.
  induction w as [|a w IH]; intros rest cur Hw; [reflexivity|].
  simpl in Hw. apply andb_true_iff in Hw as [Ha Hw].
  apply negb_true_iff in Ha. unfold isspace in Ha.
  rewrite app_cons_s. simpl String.words_go. rewrite Ha.
  rewrite IH by assumption.
  destruct cur as [x|]; destruct w; reflexivity.
Qed.

Lemma words_go_space cur s :
  String.words_go cur (String " " s)
  = option_list (String.rev <$> cur) ++ String.words_go None s.
Proof. reflexivity. Qed.

Lemma words_go_end cur :
  String.words_go cur EmptyString = option_list (String.rev <$> cur).
Proof. reflexivity. Qed.

(** Splitting what was joined with single spaces gives the words back. *)
Lemma split_join ws : Forall token ws -> split (join " " ws) = ws.
Proof.
  unfold split, join, String.words.
  induction ws as [|w ws IH]; intros Hws; [reflexivity|].
  apply Forall_cons in Hws as [[Hne Hw] Hws].
  assert (Hrev : String.rev (String.rev_app w EmptyString) = w)
    by apply rev_rev.
  destruct ws as [|w2 ws].
  - change (String.concat " " [w]) with w.
    rewrite <- (app_nil_r_s w) at 1.
    rewrite words_go_feed, words_go_end by assumption.
    destruct w as [|a w]; [congruence|].
    cbn [from_option id fmap option_fmap option_map option_list].
    now rewrite Hrev.
  - change (String.concat " " (w :: w2 :: ws))
      with (w +:+ String " " (String.concat " " (w2 :: ws))).
    rewrite words_go_feed, words_go_space by assumption.
    destruct w as [|a w]; [congruence|].
    cbn [from_option id fmap option_fmap option_map option_list].
    rewrite Hrev, IH by assumption. reflexivity.
Qed.

Lemma split_tokens s : Forall token (split s).
Proof. apply words_go_tokens. discriminate. Qed.

Lemma forallb_app_s p a b :
  forallb_s p (a +:+ b) = forallb_s p a && forallb_s p b.
Proof.
  induction a as [|c a IH]; [reflexivity|].
  rewrite app_cons_s. simpl. rewrite IH. apply andb_assoc.
Qed.

Lemma join_plain ws :
  Forall token ws -> forallb_s plain_byte (join " " ws) = true.
Proof.
  unfold join. induction ws as [|w ws IH]; intros Hws; [reflexivity|].
  apply Forall_cons in Hws as [[_ Hw] Hws].
  assert (Hpw : forallb_s plain_byte w = true).
  { clear -Hw. induction w as [|c w IHw]; [reflexivity|]. simpl in *.
    apply andb_true_iff in Hw as [Hc Hw]. rewrite (IHw Hw).
    unfold plain_byte. now rewrite Hc. }
  destruct ws as [|w2 ws]; [exact Hpw|].
  change (String.concat " " (w :: w2 :: ws))
    with (w +:+ " " +:+ String.concat " " (w2 :: ws)).
  rewrite !forallb_app_s, Hpw, IH by assumption. reflexivity.
Qed.

(** X19: [__init__] stores as comment and as header the words of its
    argument joined by single spaces: the words are those of the argument,
    every whitespace byte left is a space, and normalising the stored
    comment again, as a second [__init__] would, gives it back. *)
Theorem init_normalises_comment (comment0 filename0 flavor : string)
    (h : store) (w : world) :
  let d := self (snd (__init__ comment0 filename0 flavor h w)) in
  intro_block d = comment d /\
  split (comment d) = split comment0 /\
  join " " (split (comment d)) = comment d /\
  forallb_s plain_byte (comment d) = true /\
  comment (self (snd (__init__ (comment d) filename0 flavor h w)))
  = comment d.
Proof.
  cbn [__init__ snd self comment intro_block].
  pose proof (split_tokens comment0) as Htok.
  rewrite (split_join _ Htok).
  repeat split. now apply join_plain.
Qed.

(** ** Several calls in a row *)

Lemma matl_calls_ids batches : forall st,
  NoDup (concat batches) ->
  fst (matl_calls batches st) = Ok tt /\
  ids (heap (snd (matl_calls batches st))) (concat batches) =
  concat (map (fun b => numbers 1 1 (length b)) batches) /\
  forall l, l ∉ concat batches ->
            heap (snd (matl_calls batches st)) l = heap st l.
Proof.
  induction batches as [|b bs IH]; intros [d h w] Hnd.
  - repeat split.
  - simpl in Hnd. apply NoDup_app in Hnd as (Hb & Hdisj & Hbs).
    unfold matl_calls. simpl for_each. unfold mbind, M_bind at 1 2 3.
    rewrite matl_ok.
    match goal with |- context [for_each bs _ ?s] =>
      destruct (IH s Hbs) as (Hok & Hids & Hframe); fold (matl_calls bs s) end.
    split; [exact Hok|]. split.
    + simpl. unfold ids in *. rewrite map_app. f_equal; [|exact Hids].
      rewrite <- (stamps_ids 1 1 b h Hb). apply map_ext_in.
      intros l Hl. rewrite Hframe; [reflexivity|].
      apply Hdisj. now apply list_elem_of_In.
    + intros l Hl. simpl in Hl. apply not_elem_of_app in Hl as [Hl1 Hl2].
      rewrite Hframe by assumption. simpl. now apply stamps_other.
Qed.

(** X7: over several calls in a row on distinct objects, each call
    numbers its own list from the start again (10, 20, ... for [geo];
    1, 2, ... for [matl]); no call raises. *)
Theorem calls_number_each_batch_anew (st : state) (batches : list (list loc)) :
  NoDup (concat batches) ->
  (fst (geo_calls batches st) = Ok tt /\
   ids (heap (snd (geo_calls batches st))) (concat batches)
   = concat (map (fun b => numbers 10 10 (length b)) batches)) /\
  (fst (matl_calls batches st) = Ok tt /\
   ids (heap (snd (matl_calls batches st))) (concat batches)
   = concat (map (fun b => numbers 1 1 (length b)) batches)).
Proof.
  intros Hnd.
  destruct (geo_calls_ids batches st Hnd) as (Hg1 & Hg2 & _).
  destruct (matl_calls_ids batches st Hnd) as (Hm1 & Hm2 & _).
  now repeat split.
Qed.

Lemma calls_number_each_batch_anew_witness :
  ids (heap (snd (geo_calls [[0%nat; 1%nat]; [2%nat]] fresh)))
    [0%nat; 1%nat; 2%nat]
  = [Some 10; Some 20; Some 10].
Proof.
  apply (calls_number_each_batch_anew fresh [[0%nat; 1%nat]; [2%nat]]).
  decide_it.
Defined.
